(** * Inline edit controller of the watch database table

    A shallow embedding of [changedetectionio/static/js/inline-edit.js]
    (class [InlineEdit]) and the properties of its edit sessions, its
    payloads on the Socket.IO channel and its popover life cycle.

    Layout:
    - [JS]: the string and number primitives the controller calls
      ([trim], [split], [join], [includes], [parseInt], [Math.floor],
      [%], [||]);
    - [Dom]: the part of the page the controller reads and patches;
    - [InlineEdit]: the controller, method by method, in a state monad
      with JavaScript's exceptions, and the listeners it binds;
    - [Demo]: a small page to run it on;
    - the vocabulary of the properties, and the properties.

    Left out of the model: the CSRF token (read, never used), the
    check-all checkbox, the placement of a popover on the screen, the
    selection of the text in the title input, and the showing and
    hiding of the custom interval field.  [escapeHtml] has no
    counterpart: markup is a tree here, and a text is a node of it.

    Assumed of the browser, and said again where it matters:
    - numbers are exact integers; the doubles of the code are, up to
      [Number.MAX_SAFE_INTEGER], and the statements that compute with a
      number the user typed are bounded by it;
    - [el.focus()] moves the focus and runs no listener: the [blur] of
      a text input is an event of its own ([input_blur]), so a
      statement about a step that calls [cell.focus()] is about the
      worlds where that call takes the focus from no text input;
    - a form field holds the text it was given: a text input with a
      line feed in its value, or a textarea whose text starts with one,
      is not represented. *)

From Stdlib Require Import ZArith String Ascii List Lia.
From Stdlib Require Import DecimalString DecimalPos DecimalZ.
From stdpp Require Import base option list gmap strings.

Local Open Scope N_scope.

(** ** JavaScript primitives *)

Module JS.

(** A JavaScript string is a sequence of UTF-16 code units. *)
Abbreviation jsstring := (list N).

(** String literals of the source (all of them ASCII). *)
Definition lit (s : string) : jsstring :=
  map N_of_ascii (list_ascii_of_string s).

(** [WhiteSpace] and [LineTerminator] of ECMAScript, the code units that
    [String.prototype.trim] strips. *)
Definition is_space (c : N) : bool :=
  (c =? 9) || (c =? 10) || (c =? 11) || (c =? 12) || (c =? 13) ||
  (c =? 32) || (c =? 160) || (c =? 5760) ||
  ((8192 <=? c) && (c <=? 8202)) ||
  (c =? 8232) || (c =? 8233) || (c =? 8239) || (c =? 8287) ||
  (c =? 12288) || (c =? 65279).

Fixpoint trimStart (s : jsstring) : jsstring :=
  match s with
  | c :: r => if is_space c then trimStart r else s
  | [] => []
  end.

Definition trimEnd (s : jsstring) : jsstring := rev (trimStart (rev s)).

(** [s.trim()] *)
Definition trim (s : jsstring) : jsstring := trimEnd (trimStart s).

(** [s.split(sep)] for a separator of one code unit; the empty string
    splits into one empty piece. *)
Fixpoint split (sep : N) (s : jsstring) : list jsstring :=
  match s with
  | [] => [[]]
  | c :: r =>
      if c =? sep then [] :: split sep r
      else match split sep r with
           | h :: t => (c :: h) :: t
           | [] => [[c]]
           end
  end.

(** [a.join(sep)] *)
Fixpoint join (sep : jsstring) (a : list jsstring) : jsstring :=
  match a with
  | [] => []
  | [x] => x
  | x :: r => x ++ sep ++ join sep r
  end.

(** Truthiness of a string: only the empty string is falsy. *)
Definition truthy (s : jsstring) : bool :=
  match s with [] => false | _ => true end.

(** [a || b] on a possibly undefined string and a string. *)
Definition or_else (a : option jsstring) (b : jsstring) : jsstring :=
  match a with
  | Some s => if truthy s then s else b
  | None => b
  end.

(** Numbers.  The controller only computes with the integers that
    [parseInt] returns, and with [NaN]; the integers are kept exact (a
    double is, up to 2^53: beyond, [parseInt] rounds, and from 10^21
    [String] writes an exponent). *)
Inductive number := NaN | Int (z : Z).

Definition digit_of (radix : Z) (c : N) : option Z :=
  let v :=
    if (48 <=? c) && (c <=? 57) then Some (Z.of_N c - 48)%Z
    else if (97 <=? c) && (c <=? 122) then Some (Z.of_N c - 87)%Z
    else if (65 <=? c) && (c <=? 90) then Some (Z.of_N c - 55)%Z
    else None in
  match v with
  | Some d => if (d <? radix)%Z then Some d else None
  | None => None
  end.

(** The value of the longest prefix of digits, [None] when it is empty. *)
Fixpoint parse_digits (radix : Z) (s : jsstring) (acc : option Z) : option Z :=
  match s with
  | c :: r =>
      match digit_of radix c with
      | Some d => parse_digits radix r (Some (radix * default 0%Z acc + d)%Z)
      | None => acc
      end
  | [] => acc
  end.

(** [parseInt(s)] with no radix argument. *)
Definition parseInt (s : jsstring) : number :=
  let s1 := trimStart s in
  let '(neg, s2) :=
    match s1 with
    | 45 :: r => (true, r)
    | 43 :: r => (false, r)
    | _ => (false, s1)
    end in
  let '(radix, s3) :=
    match s2 with
    | 48 :: 120 :: r => (16%Z, r)
    | 48 :: 88 :: r => (16%Z, r)
    | _ => (10%Z, s2)
    end in
  match parse_digits radix s3 None with
  | None => NaN
  | Some n => Int (if neg then - n else n)%Z
  end.

(** [parseInt(v)] of a data attribute: an absent attribute reads as
    [undefined], whose string has no digit. *)
Definition parseInt_attr (v : option jsstring) : number :=
  match v with Some s => parseInt s | None => NaN end.

(** [Math.floor(n / d)] for a positive integer constant [d]. *)
Definition floor_div (n : number) (d : Z) : number :=
  match n with NaN => NaN | Int z => Int (z / d)%Z end.

(** [n % d]: the remainder has the sign of the dividend. *)
Definition remainder (n : number) (d : Z) : number :=
  match n with NaN => NaN | Int z => Int (Z.rem z d) end.

(** [n || d] on numbers: [NaN] and [0] are falsy. *)
Definition num_or (n : number) (d : Z) : Z :=
  match n with
  | NaN => d
  | Int z => if (z =? 0)%Z then d else z
  end.

(** [n >= k], false on [NaN]. *)
Definition num_ge (n : number) (k : Z) : bool :=
  match n with NaN => false | Int z => (k <=? z)%Z end.

(** [String(n)] *)
Definition num_to_string (n : number) : jsstring :=
  match n with
  | NaN => lit "NaN"
  | Int z => lit (NilZero.string_of_int (Z.to_int z))
  end.

Definition nat_to_string (n : nat) : jsstring := num_to_string (Int (Z.of_nat n)).

(** Whether [p] is a prefix of [s]. *)
Fixpoint starts_with (p s : jsstring) : bool :=
  match p, s with
  | [], _ => true
  | a :: p', b :: s' => (a =? b) && starts_with p' s'
  | _ :: _, [] => false
  end.

(** [s.includes(p)] *)
Fixpoint includes (p s : jsstring) : bool :=
  starts_with p s ||
  match s with
  | [] => false
  | _ :: r => includes p r
  end.

(** The longest prefix of [s] of code units of the class [f]. *)
Fixpoint take_while (f : N -> bool) (s : jsstring) : jsstring :=
  match s with
  | c :: r => if f c then c :: take_while f r else []
  | [] => []
  end.

End JS.

Import JS.

(** ** The page *)

Module Dom.

(** Markup, as [innerHTML] reads and writes it.  The white space between
    the tags of the template literals is not represented. *)
#[warnings="-register-all"]
Inductive node :=
| Text (data : jsstring)
| Elem (tag : string) (classes : list string)
       (attrs : list (string * jsstring)) (kids : list node).

(** The children that [el.textContent = s] leaves. *)
Definition text_nodes (s : jsstring) : list node :=
  if truthy s then [Text s] else [].

(** [n.textContent] *)
Fixpoint textContent (n : node) : jsstring :=
  match n with
  | Text s => s
  | Elem _ _ _ ks => concat (map textContent ks)
  end.

Definition has_class (c : string) (cls : list string) : bool :=
  bool_decide (c ∈ cls).

(** [querySelector('.c')]: the first element of class [c] in document
    order, at the node or below it. *)
Fixpoint find_in (c : string) (n : node) : option node :=
  match n with
  | Text _ => None
  | Elem _ cls _ ks =>
      if has_class c cls then Some n
      else (fix go (l : list node) : option node :=
              match l with
              | [] => None
              | k :: r =>
                  match find_in c k with
                  | Some x => Some x
                  | None => go r
                  end
              end) ks
  end.

(** [el.querySelector('.c')] over the children of [el]. *)
Fixpoint querySelector (c : string) (ks : list node) : option node :=
  match ks with
  | [] => None
  | k :: r =>
      match find_in c k with
      | Some x => Some x
      | None => querySelector c r
      end
  end.

(** The markup after the children of the element [querySelector('.c')]
    finds were replaced by [f] of them; [None] when there is no such
    element. *)
Fixpoint patch_in (c : string) (f : list node -> list node) (n : node)
  : option node :=
  match n with
  | Text _ => None
  | Elem t cls at_ ks =>
      if has_class c cls then Some (Elem t cls at_ (f ks))
      else
        Elem t cls at_ <$>
          (fix go (l : list node) : option (list node) :=
             match l with
             | [] => None
             | k :: r =>
                 match patch_in c f k with
                 | Some k' => Some (k' :: r)
                 | None => cons k <$> go r
                 end
             end) ks
  end.

Fixpoint patch (c : string) (f : list node -> list node) (ks : list node)
  : option (list node) :=
  match ks with
  | [] => None
  | k :: r =>
      match patch_in c f k with
      | Some k' => Some (k' :: r)
      | None => cons k <$> patch c f r
      end
  end.

(** [classList.add] and [classList.remove] *)
Definition class_add (c : string) (cls : list string) : list string :=
  if has_class c cls then cls else cls ++ [c].

Definition class_remove (c : string) (cls : list string) : list string :=
  filter (fun x => x ≠ c) cls.

(** An editable cell ([td.editable-cell]).  [c_input] is the value of
    the text input that [editTitle] appended, while it is attached. *)
Record Cell := {
  c_row : nat;                      (* cell.closest('tr') *)
  c_field : option jsstring;        (* cell.dataset.field *)
  c_classes : list string;
  c_html : list node;
  c_input : option jsstring
}.

(** The markup of the text input of [editTitle]. *)
Definition input_markup : node :=
  Elem "input" ["inline-input"%string] [("type"%string, lit "text")] [].

(** [cell.innerHTML] *)
Definition innerHTML (x : Cell) : list node :=
  c_html x ++ match c_input x with Some _ => [input_markup] | None => [] end.

(** A table row: its data attributes, its classes and its status
    indicator (dot and text), where it has one. *)
Record Row := {
  r_data : gmap string jsstring;    (* row.dataset *)
  r_classes : list string;
  r_status_dot : option jsstring;   (* className of .status-dot *)
  r_status_text : option jsstring   (* textContent of .status-text *)
}.

(** A pause or notification button. *)
Record Button := {
  b_row : nat;                      (* btn.closest('tr') *)
  b_op : option jsstring;           (* btn.dataset.op *)
  b_html : list node;
  b_title : option jsstring
}.

(** The fields of a popover. *)
Inductive form :=
| WordsForm (block_words trigger_words : jsstring)
| IntervalForm (interval custom_minutes : jsstring)
| TagsForm (tags : list (jsstring * bool)).   (* value, checked *)

(** What the handlers of a popover's buttons closed over. *)
Record closure := {
  k_uuid : option jsstring;
  k_row : nat;
  k_cell : nat
}.

Record Popover := {
  p_id : nat;
  p_form : form;
  p_onclick : option closure
}.

Inductive focus_target :=
| FCell (c : nat)
| FInput (c : nat)
| FPopover (p : nat).

Record document := {
  rows : gmap nat Row;
  cells : gmap nat Cell;
  buttons : gmap nat Button;
  popovers : list Popover;          (* div.edit-popover in the body *)
  toasts : list (nat * jsstring);   (* div.toast.toast-error in the body *)
  activeElement : option focus_target;
  next_id : nat
}.

(** [el.getAttribute(name)] *)
Fixpoint getAttribute (name : string) (attrs : list (string * jsstring))
  : option jsstring :=
  match attrs with
  | [] => None
  | (k, v) :: r => if bool_decide (k = name) then Some v else getAttribute name r
  end.

(** The elements that ['.tag-filter-bar .button-tag:not(.active)']
    selects at a node and below it, in document order; [inside] tells
    whether an ancestor of the node has the class of the bar. *)
Fixpoint select_tag_buttons (inside : bool) (n : node) : list node :=
  match n with
  | Text _ => []
  | Elem _ cls _ ks =>
      (if inside && has_class "button-tag" cls && negb (has_class "active" cls)
       then [n] else [])
      ++ flat_map (select_tag_buttons (inside || has_class "tag-filter-bar" cls))
           ks
  end.

End Dom.

Import Dom.

(** ** The controller *)

Module InlineEdit.

(** [this.activeEdit] *)
Module Edit.
Record t := {
  cell : nat;
  uuid : option jsstring;           (* row.dataset.watchUuid *)
  field : string;
  originalHTML : option (list node);
  originalValue : option jsstring
}.
End Edit.

(** The values of [this.pendingUpdates]. *)
Module Pending.
Record t := {
  cell : nat;
  originalHTML : option (list node);
  originalValue : option jsstring
}.
End Pending.

(** An entry of [this.allTags]. *)
Module Tag.
Record t := { uuid : jsstring; title : jsstring }.
End Tag.

Record controller := {
  socket : bool;                            (* is this.socket set? *)
  activeEdit : option Edit.t;
  activePopover : option nat;               (* the popover's [p_id] *)
  allTags : list Tag.t;
  pendingUpdates : gmap (option jsstring) Pending.t
}.

(** What goes out on the socket. *)
Record time_between_check := {
  weeks : number; days : number; hours : number;
  minutes : number; seconds : number
}.

Inductive updates :=
| Title (title : jsstring)
| Words (block_words trigger_words : list jsstring)
| Interval (time_between_check_use_default : bool)
           (tbc : option time_between_check)
| Tags (tags : list jsstring).

Inductive message :=
| watch_update (uuid : option jsstring) (u : updates)
| watch_operation (op : option jsstring) (uuid : option jsstring).

(** The callbacks handed to [setTimeout]. *)
Inductive callback :=
| restore_title (c : nat) (originalHTML : option (list node))
                (value : jsstring) (originalValue : option jsstring)
| remove_success (c : nat)
| remove_toast (t : nat).

Record world := {
  this : controller;
  page : document;
  sent : list message;              (* socket.emit, oldest first *)
  timers : list callback            (* setTimeout, not yet run *)
}.

(** *** State and exceptions

    A method runs on the world and returns a value, or [None] when it
    threw (a [TypeError] on [null]); what it did before stays done. *)
Definition M (A : Type) : Type := world -> world * option A.

#[export] Instance M_ret : MRet M := fun A a w => (w, Some a).

#[export] Instance M_bind : MBind M := fun A B f m w =>
  match m w with
  | (w', Some a) => f a w'
  | (w', None) => (w', None)
  end.

Definition throw {A} : M A := fun w => (w, None).

Definition get_this : M controller := fun w => (w, Some (this w)).

Definition get_page : M document := fun w => (w, Some (page w)).

Definition modify_this (f : controller -> controller) : M unit := fun w =>
  ({| this := f (this w); page := page w; sent := sent w;
      timers := timers w |}, Some tt).

Definition modify_page (f : document -> document) : M unit := fun w =>
  ({| this := this w; page := f (page w); sent := sent w;
      timers := timers w |}, Some tt).

(** [this.socket.emit(...)] *)
Definition emit (m : message) : M unit := fun w =>
  ({| this := this w; page := page w; sent := sent w ++ [m];
      timers := timers w |}, Some tt).

Definition setTimeout (k : callback) : M unit := fun w =>
  ({| this := this w; page := page w; sent := sent w;
      timers := timers w ++ [k] |}, Some tt).

(** The world a method leaves, and whether it returned. *)
Definition exec {A} (m : M A) (w : world) : world := fst (m w).
Definition returns {A} (m : M A) (w : world) : Prop := is_Some (snd (m w)).

(** *** Field updates *)

Definition with_activeEdit (e : option Edit.t) (t : controller) :=
  {| socket := socket t; activeEdit := e; activePopover := activePopover t;
     allTags := allTags t; pendingUpdates := pendingUpdates t |}.

Definition with_activePopover (p : option nat) (t : controller) :=
  {| socket := socket t; activeEdit := activeEdit t; activePopover := p;
     allTags := allTags t; pendingUpdates := pendingUpdates t |}.

Definition with_pendingUpdates (f : gmap (option jsstring) Pending.t ->
                                    gmap (option jsstring) Pending.t)
  (t : controller) :=
  {| socket := socket t; activeEdit := activeEdit t;
     activePopover := activePopover t; allTags := allTags t;
     pendingUpdates := f (pendingUpdates t) |}.

Definition with_rows (f : gmap nat Row -> gmap nat Row) (d : document) :=
  {| rows := f (rows d); cells := cells d; buttons := buttons d;
     popovers := popovers d; toasts := toasts d;
     activeElement := activeElement d; next_id := next_id d |}.

Definition with_cells (f : gmap nat Cell -> gmap nat Cell) (d : document) :=
  {| rows := rows d; cells := f (cells d); buttons := buttons d;
     popovers := popovers d; toasts := toasts d;
     activeElement := activeElement d; next_id := next_id d |}.

Definition with_buttons (f : gmap nat Button -> gmap nat Button)
  (d : document) :=
  {| rows := rows d; cells := cells d; buttons := f (buttons d);
     popovers := popovers d; toasts := toasts d;
     activeElement := activeElement d; next_id := next_id d |}.

Definition with_popovers (f : list Popover -> list Popover) (d : document) :=
  {| rows := rows d; cells := cells d; buttons := buttons d;
     popovers := f (popovers d); toasts := toasts d;
     activeElement := activeElement d; next_id := next_id d |}.

Definition with_toasts (f : list (nat * jsstring) -> list (nat * jsstring))
  (d : document) :=
  {| rows := rows d; cells := cells d; buttons := buttons d;
     popovers := popovers d; toasts := f (toasts d);
     activeElement := activeElement d; next_id := next_id d |}.

Definition with_activeElement (a : option focus_target) (d : document) :=
  {| rows := rows d; cells := cells d; buttons := buttons d;
     popovers := popovers d; toasts := toasts d;
     activeElement := a; next_id := next_id d |}.

Definition with_next_id (n : nat) (d : document) :=
  {| rows := rows d; cells := cells d; buttons := buttons d;
     popovers := popovers d; toasts := toasts d;
     activeElement := activeElement d; next_id := n |}.

(** *** Reading and patching the page

    An element the code holds a reference to is named by its key; a
    read of a key the page does not have throws, as a property read on
    [null] does. *)

Definition get_cell (c : nat) : M Cell := fun w => (w, cells (page w) !! c).
Definition get_row (r : nat) : M Row := fun w => (w, rows (page w) !! r).
Definition get_button (b : nat) : M Button :=
  fun w => (w, buttons (page w) !! b).

Definition update_cell (c : nat) (f : Cell -> Cell) : M unit :=
  modify_page (with_cells (alter f c)).
Definition update_row (r : nat) (f : Row -> Row) : M unit :=
  modify_page (with_rows (alter f r)).
Definition update_button (b : nat) (f : Button -> Button) : M unit :=
  modify_page (with_buttons (alter f b)).

Definition cell_classes (f : list string -> list string) (x : Cell) : Cell :=
  {| c_row := c_row x; c_field := c_field x; c_classes := f (c_classes x);
     c_html := c_html x; c_input := c_input x |}.

(** [cell.innerHTML = h] drops what the cell held, the text input too. *)
Definition cell_html (h : list node) (x : Cell) : Cell :=
  {| c_row := c_row x; c_field := c_field x; c_classes := c_classes x;
     c_html := h; c_input := None |}.

Definition cell_input (v : jsstring) (x : Cell) : Cell :=
  {| c_row := c_row x; c_field := c_field x; c_classes := c_classes x;
     c_html := c_html x; c_input := Some v |}.

Definition row_data (f : gmap string jsstring -> gmap string jsstring)
  (r : Row) : Row :=
  {| r_data := f (r_data r); r_classes := r_classes r;
     r_status_dot := r_status_dot r; r_status_text := r_status_text r |}.

Definition row_classes (f : list string -> list string) (r : Row) : Row :=
  {| r_data := r_data r; r_classes := f (r_classes r);
     r_status_dot := r_status_dot r; r_status_text := r_status_text r |}.

(** [if (statusDot) statusDot.className = dot;
     if (statusText) statusText.textContent = text] *)
Definition row_status (dot text : jsstring) (r : Row) : Row :=
  {| r_data := r_data r; r_classes := r_classes r;
     r_status_dot := (fun _ => dot) <$> r_status_dot r;
     r_status_text := (fun _ => text) <$> r_status_text r |}.

(** [btn.dataset.op = op; btn.innerHTML = h; btn.title = title] *)
Definition button_face (op : jsstring) (h : list node) (title : jsstring)
  (b : Button) : Button :=
  {| b_row := b_row b; b_op := Some op; b_html := h; b_title := Some title |}.

#[export] Instance focus_target_eq_dec : EqDecision focus_target.
Proof. solve_decision. Defined.

(** An element that leaves the document loses the focus, which falls
    back to the body; no [blur] is dispatched for it. *)
Definition unfocus (a : focus_target) (d : document) : document :=
  with_activeElement
    (if bool_decide (activeElement d = Some a) then None else activeElement d)
    d.

(** [cell.innerHTML = h] *)
Definition set_innerHTML (c : nat) (h : list node) : M unit :=
  update_cell c (cell_html h);;
  modify_page (unfocus (FInput c)).

(** [el.focus()].  The focus moves and no listener runs: where the
    focus is taken from an attached text input, the [blur] that the
    browser dispatches is the event [input_blur], not a part of this
    call. *)
Definition focus (a : focus_target) : M unit :=
  modify_page (with_activeElement (Some a)).

(** An empty string of markup is falsy. *)
Definition html_truthy (h : list node) : bool :=
  match h with [] => false | _ => true end.

(** The markup that [cell.innerHTML = originalHTML] writes: a session
    without [originalHTML] holds [undefined] there. *)
Definition html_or_undefined (h : option (list node)) : list node :=
  match h with
  | Some h => h
  | None => [Text (lit "undefined")]
  end.

(** *** Feedback *)

(** [showSuccess(cell)] *)
Definition showSuccess (c : nat) : M unit :=
  update_cell c (cell_classes (class_add "save-success"));;
  setTimeout (remove_success c).

(** [showError(message)] *)
Definition showError (message : jsstring) : M unit :=
  d ← get_page;
  let toast := next_id d in
  modify_page (with_next_id (S toast));;
  modify_page (with_toasts (fun l => l ++ [(toast, message)]));;
  setTimeout (remove_toast toast).

(** *** Popovers *)

(** [popover.remove()] *)
Definition remove_popover (p : nat) : M unit :=
  modify_page (with_popovers (filter (fun x => p_id x ≠ p)));;
  modify_page (unfocus (FPopover p)).

(** [closePopover()] *)
Definition closePopover : M unit :=
  t ← get_this;
  match activePopover t with
  | Some p =>
      remove_popover p;;
      modify_this (with_activePopover None)
  | None => mret tt
  end;;
  (* Restore focus to the edited cell *)
  match activeEdit t with
  | Some e => focus (FCell (Edit.cell e))
  | None => mret tt
  end;;
  modify_this (with_activeEdit None).

(** [cancelEdit()] *)
Definition cancelEdit : M unit :=
  t ← get_this;
  match activeEdit t with
  | Some e =>
      match Edit.originalHTML e with
      | Some h =>
          if html_truthy h then
            set_innerHTML (Edit.cell e) h;;
            update_cell (Edit.cell e) (cell_classes (class_remove "editing"))
          else mret tt
      | None => mret tt
      end
  | None => mret tt
  end;;
  closePopover.

(** [createPopover(cell, content)].  The content is given by its form
    fields; where the popover is placed on the screen is left out. *)
Definition createPopover (c : nat) (content : form) : M nat :=
  (* Remove any existing popover *)
  closePopover;;
  d ← get_page;
  let popover := next_id d in
  modify_page (with_next_id (S popover));;
  modify_page (with_popovers (fun l =>
    l ++ [{| p_id := popover; p_form := content; p_onclick := None |}]));;
  mret popover.

(** [popover.querySelector('.btn-save').onclick = ...] and the same for
    [.btn-cancel]: the handlers close over [uuid], [row] and [cell]. *)
Definition set_onclick (p : nat) (k : closure) : M unit :=
  modify_page (with_popovers (map (fun x =>
    if bool_decide (p_id x = p)
    then {| p_id := p_id x; p_form := p_form x; p_onclick := Some k |}
    else x))).

Definition pending_set (uuid : option jsstring) (p : Pending.t) : M unit :=
  modify_this (with_pendingUpdates (insert uuid p)).

(** The record [{ cell }] that the popover editors track. *)
Definition pending_cell (c : nat) : Pending.t :=
  {| Pending.cell := c; Pending.originalHTML := None;
     Pending.originalValue := None |}.

(** *** Title *)

(** [editTitle(cell, uuid, row)] *)
Definition editTitle (c : nat) (uuid : option jsstring) (r : nat) : M unit :=
  x ← get_cell c;
  rw ← get_row r;
  let titleSpan := querySelector "title-text" (innerHTML x) in
  currentValue ←
    match r_data rw !! "watchTitle"%string with
    | Some v =>
        if truthy v then mret v
        else match titleSpan with
             | Some n => mret (trim (textContent n))
             | None => throw
             end
    | None =>
        match titleSpan with
        | Some n => mret (trim (textContent n))
        | None => throw
        end
    end;
  update_cell c (cell_classes (class_add "editing"));;
  let originalHTML := innerHTML x in
  set_innerHTML c [];;
  update_cell c (cell_input currentValue);;
  focus (FInput c);;
  modify_this (with_activeEdit (Some
    {| Edit.cell := c; Edit.uuid := uuid; Edit.field := "title";
       Edit.originalHTML := Some originalHTML;
       Edit.originalValue := Some currentValue |})).

Definition saving_indicator : list node :=
  [Elem "span" ["saving-indicator"%string] [] [Text (lit "Saving...")]].

(** The optimistic update of the cell, in the timer callback and in the
    fallback without a socket:
    [cell.innerHTML = originalHTML;
     cell.querySelector('.title-text').textContent = value || originalValue;
     cell.closest('tr').dataset.watchTitle = value;
     cell.classList.remove('editing')] *)
Definition show_title (c : nat) (originalHTML : option (list node))
  (value : jsstring) (originalValue : option jsstring) : M unit :=
  set_innerHTML c (html_or_undefined originalHTML);;
  x ← get_cell c;
  let text := if truthy value then value else default [] originalValue in
  match patch "title-text" (fun _ => text_nodes text) (c_html x) with
  | Some h => update_cell c (cell_html h)
  | None => throw
  end;;
  _ ← get_row (c_row x);
  update_row (c_row x) (row_data (insert "watchTitle"%string value));;
  update_cell c (cell_classes (class_remove "editing")).

(** [saveTitle(value)] *)
Definition saveTitle (value : jsstring) : M unit :=
  t ← get_this;
  match activeEdit t with
  | None => mret tt
  | Some e =>
      let c := Edit.cell e in
      if bool_decide (Some value = Edit.originalValue e) then
        (* No change, just restore *)
        set_innerHTML c (html_or_undefined (Edit.originalHTML e));;
        update_cell c (cell_classes (class_remove "editing"));;
        modify_this (with_activeEdit None)
      else
        (* Show saving state *)
        set_innerHTML c saving_indicator;;
        (* Track pending update *)
        pending_set (Edit.uuid e)
          {| Pending.cell := c;
             Pending.originalHTML := Edit.originalHTML e;
             Pending.originalValue := Edit.originalValue e |};;
        (if socket t then
           emit (watch_update (Edit.uuid e) (Title value));;
           (* Update cell optimistically *)
           setTimeout (restore_title c (Edit.originalHTML e) value
                         (Edit.originalValue e))
         else
           (* Fallback - just update locally *)
           show_title c (Edit.originalHTML e) value (Edit.originalValue e);;
           showSuccess c);;
        modify_this (with_activeEdit None)
  end.

(** The [saveHandler] of the text input, on its value. *)
Definition saveHandler (input_value : jsstring) : M unit :=
  t ← get_this;
  match activeEdit t with
  | Some _ => saveTitle (trim input_value)
  | None => mret tt
  end.

(** *** Watch words *)

(** [value.split('\n').map(w => w.trim()).filter(w => w)] *)
Definition words_of (value : jsstring) : list jsstring :=
  List.filter truthy (map trim (split 10 value)).

(** [editWatchWords(cell, uuid, row)] *)
Definition editWatchWords (c : nat) (uuid : option jsstring) (r : nat)
  : M unit :=
  rw ← get_row r;
  let blockWords := or_else (r_data rw !! "blockWords"%string) [] in
  let triggerWords := or_else (r_data rw !! "triggerWords"%string) [] in
  popover ← createPopover c (WordsForm blockWords triggerWords);
  modify_this (with_activeEdit (Some
    {| Edit.cell := c; Edit.uuid := uuid; Edit.field := "watch_words";
       Edit.originalHTML := None; Edit.originalValue := None |}));;
  modify_this (with_activePopover (Some popover));;
  set_onclick popover {| k_uuid := uuid; k_row := r; k_cell := c |};;
  (* Focus first textarea *)
  focus (FPopover popover).

Definition words_summary (blockWords triggerWords : list jsstring)
  : list node :=
  if (0 <? length blockWords)%nat || (0 <? length triggerWords)%nat then
    [ Elem "span" ["block-count"%string]
        [("title"%string, lit "Block words")]
        [Text (nat_to_string (length blockWords) ++ lit " block")];
      Elem "span" ["words-sep"%string] [] [Text (lit "/")];
      Elem "span" ["trigger-count"%string]
        [("title"%string, lit "Trigger words")]
        [Text (nat_to_string (length triggerWords) ++ lit " trig")] ]
  else [Elem "span" ["no-words"%string] [] [Text (lit "None")]].

(** [el = cell.querySelector('.cls'); el.innerHTML = h], for the classes
    of the summary views; the text input is of none of them and stays. *)
Definition set_part (c : nat) (cls : string) (h : list node) : M unit :=
  x ← get_cell c;
  match patch cls (fun _ => h) (c_html x) with
  | Some h' =>
      update_cell c (fun x =>
        {| c_row := c_row x; c_field := c_field x; c_classes := c_classes x;
           c_html := h'; c_input := c_input x |})
  | None => throw
  end.

(** [saveWatchWords(uuid, blockWords, triggerWords, row, cell)] *)
Definition saveWatchWords (uuid : option jsstring)
  (blockWords triggerWords : list jsstring) (r c : nat) : M unit :=
  (* Track pending update *)
  pending_set uuid (pending_cell c);;
  t ← get_this;
  (if socket t then
     emit (watch_update uuid (Words blockWords triggerWords))
   else mret tt);;
  (* Update data attributes *)
  update_row r (row_data (insert "blockWords"%string (join [10] blockWords)));;
  update_row r
    (row_data (insert "triggerWords"%string (join [10] triggerWords)));;
  (* Update display *)
  set_part c "words-summary" (words_summary blockWords triggerWords);;
  closePopover;;
  showSuccess c.

(** The click handler of the Save button of the watch words popover. *)
Definition save_words_click (k : closure) (block_words trigger_words : jsstring)
  : M unit :=
  saveWatchWords (k_uuid k) (words_of block_words) (words_of trigger_words)
    (k_row k) (k_cell k).

(** *** Interval *)

Definition presets : list Z := [1; 5; 15; 30; 60; 180; 360; 720; 1440]%Z.

(** The option of the dropdown that the markup selects: the one with
    [selected], the first one when none has it. *)
Definition selected_interval (useDefault : bool) (currentMinutes : Z)
  : jsstring :=
  if useDefault then lit "default"
  else if bool_decide (currentMinutes ∈ presets)
       then num_to_string (Int currentMinutes)
  else if (0 <? currentMinutes)%Z then lit "custom"
  else lit "default".

(** [editInterval(cell, uuid, row)] *)
Definition editInterval (c : nat) (uuid : option jsstring) (r : nat)
  : M unit :=
  rw ← get_row r;
  let useDefault :=
    bool_decide (r_data rw !! "intervalUseDefault"%string = Some (lit "true")) in
  let hours := num_or (parseInt_attr (r_data rw !! "intervalHours"%string)) 0 in
  let minutes :=
    num_or (parseInt_attr (r_data rw !! "intervalMinutes"%string)) 0 in
  (* Calculate current value in minutes for dropdown *)
  let currentMinutes := (hours * 60 + minutes)%Z in
  popover ← createPopover c
    (IntervalForm (selected_interval useDefault currentMinutes)
       (num_to_string (Int (num_or (Int currentMinutes) 60))));
  modify_this (with_activeEdit (Some
    {| Edit.cell := c; Edit.uuid := uuid; Edit.field := "time_between_check";
       Edit.originalHTML := None; Edit.originalValue := None |}));;
  modify_this (with_activePopover (Some popover));;
  set_onclick popover {| k_uuid := uuid; k_row := r; k_cell := c |}.

(** The [updates] object of [saveInterval]. *)
Definition interval_updates (value : jsstring) : updates :=
  if bool_decide (value = lit "default") then Interval true None
  else
    let minutes := parseInt value in
    let hours := floor_div minutes 60 in
    let mins := remainder minutes 60 in
    Interval false (Some
      {| weeks := Int 0; days := Int 0; hours := hours; minutes := mins;
         seconds := Int 0 |}).

(** The text of the interval cell. *)
Definition interval_text (value : jsstring) : list node :=
  if bool_decide (value = lit "default") then
    [Elem "span" ["interval-default"%string] [] [Text (lit "Default")]]
  else
    let mins := parseInt value in
    if num_ge mins 1440 then
      text_nodes (num_to_string (floor_div mins 1440) ++ lit "d")
    else if num_ge mins 60 then
      text_nodes (num_to_string (floor_div mins 60) ++ lit "h")
    else text_nodes (num_to_string mins ++ lit "m").

(** [saveInterval(uuid, value, row, cell)] *)
Definition saveInterval (uuid : option jsstring) (value : jsstring)
  (r c : nat) : M unit :=
  let updates := interval_updates value in
  (* Track pending update *)
  pending_set uuid (pending_cell c);;
  t ← get_this;
  (if socket t then emit (watch_update uuid updates) else mret tt);;
  (* Update data attributes *)
  (if bool_decide (value = lit "default") then
     update_row r (row_data (insert "intervalUseDefault"%string (lit "true")))
   else
     let minutes := parseInt value in
     update_row r
       (row_data (insert "intervalUseDefault"%string (lit "false")));;
     update_row r (row_data (insert "intervalHours"%string
       (num_to_string (floor_div minutes 60))));;
     update_row r (row_data (insert "intervalMinutes"%string
       (num_to_string (remainder minutes 60)))));;
  (* Update display *)
  set_part c "interval-text" (interval_text value);;
  closePopover;;
  showSuccess c.

(** The click handler of the Save button of the interval popover. *)
Definition save_interval_click (k : closure) (interval custom_minutes : jsstring)
  : M unit :=
  let value :=
    if bool_decide (interval = lit "custom") then custom_minutes
    else interval in
  saveInterval (k_uuid k) value (k_row k) (k_cell k).

(** *** Tags *)

(** [this.allTags.find(t => t.uuid === tagUuid)] *)
Definition find_tag (all : list Tag.t) (tagUuid : jsstring) : option Tag.t :=
  List.find (fun t => bool_decide (Tag.uuid t = tagUuid)) all.

(** [editTags(cell, uuid, row)]: one checkbox for each tag of the
    catalog, checked when the row has the tag. *)
Definition editTags (c : nat) (uuid : option jsstring) (r : nat) : M unit :=
  rw ← get_row r;
  t ← get_this;
  let currentTags :=
    List.filter truthy (split 44 (or_else (r_data rw !! "tags"%string) [])) in
  let boxes :=
    map (fun tag => (Tag.uuid tag, bool_decide (Tag.uuid tag ∈ currentTags)))
        (allTags t) in
  popover ← createPopover c (TagsForm boxes);
  modify_this (with_activeEdit (Some
    {| Edit.cell := c; Edit.uuid := uuid; Edit.field := "tags";
       Edit.originalHTML := None; Edit.originalValue := None |}));;
  modify_this (with_activePopover (Some popover));;
  set_onclick popover {| k_uuid := uuid; k_row := r; k_cell := c |}.

(** [<span class="db-tag-badge">title</span>] *)
Definition badge (title : jsstring) : node :=
  Elem "span" ["db-tag-badge"%string] [] (text_nodes title).

Definition no_tags : list node :=
  [Elem "span" ["no-tags"%string] [] [Text (lit "-")]].

(** The markup of the tags cell: each identifier maps to the badge of
    its catalog entry or to the empty string, the empty strings are
    filtered out and the rest is joined. *)
Definition tags_badges (all : list Tag.t) (tagUuids : list jsstring)
  : list node :=
  concat (List.filter html_truthy
    (map (fun tagUuid =>
            match find_tag all tagUuid with
            | Some tag => [badge (Tag.title tag)]
            | None => []
            end) tagUuids)).

Definition tags_markup (all : list Tag.t) (tagUuids : list jsstring)
  : list node :=
  match tagUuids with
  | [] => no_tags
  | _ =>
      let badges := tags_badges all tagUuids in
      if html_truthy badges then badges else no_tags
  end.

(** [saveTags(uuid, tagUuids, row, cell)] *)
Definition saveTags (uuid : option jsstring) (tagUuids : list jsstring)
  (r c : nat) : M unit :=
  (* Track pending update *)
  pending_set uuid (pending_cell c);;
  t ← get_this;
  (if socket t then emit (watch_update uuid (Tags tagUuids)) else mret tt);;
  (* Update data attribute *)
  update_row r (row_data (insert "tags"%string (join [44] tagUuids)));;
  (* Update display - get tag titles from our collected tags *)
  set_part c "tags-list" (tags_markup (allTags t) tagUuids);;
  closePopover;;
  showSuccess c.

(** [popover.querySelectorAll('[name=tags]:checked')].map(cb => cb.value) *)
Definition checked_values (boxes : list (jsstring * bool)) : list jsstring :=
  map fst (List.filter snd boxes).

(** The click handler of the Save button of the tags popover. *)
Definition save_tags_click (k : closure) (boxes : list (jsstring * bool))
  : M unit :=
  saveTags (k_uuid k) (checked_values boxes) (k_row k) (k_cell k).

(** *** Pause and mute *)

(** [toggleOperation(uuid, op, btn, row)] *)
Definition toggleOperation (uuid op : option jsstring) (btn r : nat)
  : M unit :=
  t ← get_this;
  (if socket t then
     (* Map unpause/unmute to pause/mute (the handler toggles) *)
     let socketOp := op in
     let socketOp :=
       if bool_decide (op = Some (lit "unpause")) then Some (lit "pause")
       else socketOp in
     let socketOp :=
       if bool_decide (op = Some (lit "unmute")) then Some (lit "mute")
       else socketOp in
     emit (watch_operation socketOp uuid)
   else mret tt);;
  (* Toggle the UI state optimistically *)
  if bool_decide (op = Some (lit "pause")) then
    update_row r (row_classes (class_add "paused"));;
    update_button btn
      (button_face (lit "unpause") [Text [9654]] (lit "Unpause"));;
    update_row r (row_status (lit "status-dot status-paused") (lit "Paused"))
  else if bool_decide (op = Some (lit "unpause")) then
    update_row r (row_classes (class_remove "paused"));;
    update_button btn
      (button_face (lit "pause") [Text [10074; 10074]] (lit "Pause"));;
    update_row r (row_status (lit "status-dot status-ok") (lit "OK"))
  else if bool_decide (op = Some (lit "mute")) then
    update_row r (row_classes (class_add "notification_muted"));;
    update_button btn
      (button_face (lit "unmute")
         [Elem "span" ["notify-muted"%string] [] [Text [55357; 56597]]]
         (lit "Unmute notifications"))
  else if bool_decide (op = Some (lit "unmute")) then
    update_row r (row_classes (class_remove "notification_muted"));;
    update_button btn
      (button_face (lit "mute")
         [Elem "span" ["notify-active"%string] [] [Text [55357; 56596]]]
         (lit "Mute notifications"))
  else mret tt.

(** *** Dispatch *)

(** [startEdit(cell)] *)
Definition startEdit (c : nat) : M unit :=
  x ← get_cell c;
  let field := c_field x in
  let r := c_row x in
  rw ← get_row r;
  let uuid := r_data rw !! "watchUuid"%string in
  (* Dispatch to field-specific editor *)
  if bool_decide (field = Some (lit "title")) then editTitle c uuid r
  else if bool_decide (field = Some (lit "watch_words")) then
    editWatchWords c uuid r
  else if bool_decide (field = Some (lit "time_between_check")) then
    editInterval c uuid r
  else if bool_decide (field = Some (lit "tags")) then editTags c uuid r
  else mret tt.

(** *** Listeners

    The user's and the server's events, each with the listeners of
    [bindEvents] and [bindSocketEvents] that it reaches, in the order of
    the bubbling.  A [blur] of the text input is an event of its own
    here: a programmatic change of focus dispatches none. *)

(** A listener that throws ends there; the next listener still runs. *)
Definition listener (m : M unit) : M unit := fun w => (fst (m w), Some tt).

(** Click on editable cell *)
Definition on_table_click (c : nat) : M unit :=
  t ← get_this;
  match activeEdit t with
  | None => startEdit c
  | Some _ => mret tt
  end.

Definition is_activation_key (key : jsstring) : bool :=
  bool_decide (key = lit "Enter") || bool_decide (key = lit " ").

(** Keyboard support for editable cells (Enter/Space to activate) *)
Definition on_table_keydown (c : nat) (key : jsstring) : M unit :=
  t ← get_this;
  match activeEdit t with
  | None => if is_activation_key key then startEdit c else mret tt
  | Some _ => mret tt
  end.

(** Cancel on escape *)
Definition on_document_keydown (key : jsstring) : M unit :=
  t ← get_this;
  match activeEdit t with
  | Some _ =>
      if bool_decide (key = lit "Escape") then cancelEdit else mret tt
  | None => mret tt
  end.

(** Close popover when clicking outside: [inside] tells whether the
    target is in the active popover or in an editable cell. *)
Definition on_document_click (inside : bool) : M unit :=
  t ← get_this;
  match activePopover t with
  | Some _ => if inside then mret tt else cancelEdit
  | None => mret tt
  end.

(** Handle pause/mute toggle buttons *)
Definition on_toggle_click (btn : nat) : M unit :=
  b ← get_button btn;
  rw ← get_row (b_row b);
  let uuid := r_data rw !! "watchUuid"%string in
  let op := b_op b in
  toggleOperation uuid op btn (b_row b).

(** The [keydown] listener of the text input. *)
Definition on_input_keydown (c : nat) (key : jsstring) : M unit :=
  x ← get_cell c;
  match c_input x with
  | Some v => if bool_decide (key = lit "Enter") then saveHandler v else mret tt
  | None => mret tt
  end.

(** The [keydown] listener of a popover; Tab keeps the focus in it. *)
Definition on_popover_keydown (key : jsstring) : M unit :=
  if bool_decide (key = lit "Escape") then cancelEdit else mret tt.

Definition find_popover (p : nat) (d : document) : option Popover :=
  List.find (fun x => bool_decide (p_id x = p)) (popovers d).

(** [.btn-save] of popover [p] *)
Definition on_save_click (p : nat) : M unit :=
  d ← get_page;
  match find_popover p d with
  | Some x =>
      match p_onclick x with
      | Some k =>
          match p_form x with
          | WordsForm b t => save_words_click k b t
          | IntervalForm i m => save_interval_click k i m
          | TagsForm boxes => save_tags_click k boxes
          end
      | None => mret tt
      end
  | None => mret tt
  end.

(** [.btn-cancel] of popover [p] *)
Definition on_cancel_click (p : nat) : M unit :=
  d ← get_page;
  match find_popover p d with
  | Some x =>
      match p_onclick x with
      | Some _ => cancelEdit
      | None => mret tt
      end
  | None => mret tt
  end.

(** [update_result] from the server *)
Definition on_update_result (success : bool) (uuid error : option jsstring)
  : M unit :=
  t ← get_this;
  if success then
    match pendingUpdates t !! uuid with
    | Some pending =>
        showSuccess (Pending.cell pending);;
        modify_this (with_pendingUpdates (delete uuid))
    | None => mret tt
    end
  else
    match pendingUpdates t !! uuid with
    | Some pending =>
        showError (or_else error (lit "Update failed"));;
        modify_this (with_pendingUpdates (delete uuid))
    | None => mret tt
    end.

(** [operation_result] from the server *)
Definition on_operation_result (success : bool) (error : option jsstring)
  : M unit :=
  if success then mret tt
  else showError (or_else error (lit "Operation failed")).

(** A timer fires. *)
Definition run_callback (k : callback) : M unit :=
  match k with
  | restore_title c originalHTML value originalValue =>
      show_title c originalHTML value originalValue
  | remove_success c =>
      update_cell c (cell_classes (class_remove "save-success"))
  | remove_toast t =>
      modify_page (with_toasts (filter (fun x => x.1 ≠ t)))
  end.

Definition on_timeout (i : nat) : M unit := fun w =>
  match timers w !! i with
  | Some k =>
      run_callback k
        {| this := this w; page := page w; sent := sent w;
           timers := delete i (timers w) |}
  | None => (w, Some tt)
  end.

(** *** Events *)

(** Where an event is targeted. *)
Inductive target :=
| in_cell (c : nat)        (* in an editable cell, not in its text input *)
| in_input (c : nat)       (* in the text input of a cell *)
| in_popover (p : nat)
| elsewhere.

#[export] Instance target_eq_dec : EqDecision target.
Proof. solve_decision. Defined.

(** The [click] listener of the document, on the target of the click:
    [this.activePopover && !this.activePopover.contains(e.target) &&
     !e.target.closest('.editable-cell')] *)
Definition on_document_click_at (tgt : target) : M unit :=
  t ← get_this;
  let inside :=
    match tgt with
    | in_cell _ | in_input _ => true
    | in_popover p => bool_decide (activePopover t = Some p)
    | elsewhere => false
    end in
  on_document_click inside.

Inductive event :=
| click_cell (c : nat)
| click_toggle (btn : nat)
| click_save (p : nat)
| click_cancel (p : nat)
| click_elsewhere
| keydown (tgt : target) (key : jsstring)
| input_value (c : nat) (v : jsstring)          (* typing in the text input *)
| input_blur (c : nat) (to : option focus_target)
| form_input (p : nat) (f : form)               (* filling in a popover *)
| update_result (success : bool) (uuid error : option jsstring)
| operation_result (success : bool) (error : option jsstring)
| timeout (i : nat).

(** The values of the options of the interval dropdown. *)
Definition interval_options : list jsstring :=
  lit "default" :: map (fun z => num_to_string (Int z)) presets
    ++ [lit "custom"].

(** What a user can make of a form. *)
Definition accepts (old new : form) : bool :=
  match old, new with
  | WordsForm _ _, WordsForm _ _ => true
  | IntervalForm _ _, IntervalForm i _ => bool_decide (i ∈ interval_options)
  | TagsForm a, TagsForm b => bool_decide (map fst a = map fst b)
  | _, _ => false
  end.

Definition set_form (p : nat) (f : form) : M unit :=
  modify_page (with_popovers (map (fun x =>
    if bool_decide (p_id x = p) && accepts (p_form x) f
    then {| p_id := p_id x; p_form := f; p_onclick := p_onclick x |}
    else x))).

Definition input_attached (c : nat) (d : document) : option jsstring :=
  x ← cells d !! c; c_input x.

(** The listeners an event runs.  An event on an element that is not in
    the document (a popover that was removed, a text input that was
    replaced) cannot occur and runs none. *)
Definition handle (e : event) : M unit :=
  match e with
  | click_cell c => listener (on_table_click c)
  | click_toggle btn =>
      listener (on_toggle_click btn);;
      listener (on_document_click_at elsewhere)
  | click_save p =>
      listener (on_save_click p);;
      listener (on_document_click_at (in_popover p))
  | click_cancel p =>
      listener (on_cancel_click p);;
      listener (on_document_click_at (in_popover p))
  | click_elsewhere => listener (on_document_click_at elsewhere)
  | keydown (in_cell c) key =>
      listener (on_table_keydown c key);;
      listener (on_document_keydown key)
  | keydown (in_input c) key =>
      d ← get_page;
      match input_attached c d with
      | Some _ =>
          listener (on_input_keydown c key);;
          d' ← get_page;
          match input_attached c d' with
          | Some _ => listener (on_table_keydown c key)
          | None => mret tt
          end;;
          listener (on_document_keydown key)
      | None => mret tt
      end
  | keydown (in_popover p) key =>
      d ← get_page;
      match find_popover p d with
      | Some _ =>
          listener (on_popover_keydown key);;
          listener (on_document_keydown key)
      | None => mret tt
      end
  | keydown elsewhere key => listener (on_document_keydown key)
  | input_value c v =>
      d ← get_page;
      match input_attached c d with
      | Some _ => update_cell c (cell_input v)
      | None => mret tt
      end
  | input_blur c to =>
      d ← get_page;
      match input_attached c d with
      | Some v =>
          modify_page (with_activeElement to);;
          listener (saveHandler v)
      | None => mret tt
      end
  | form_input p f => set_form p f
  | update_result success uuid error =>
      t ← get_this;
      if socket t then listener (on_update_result success uuid error)
      else mret tt
  | operation_result success error =>
      t ← get_this;
      if socket t then listener (on_operation_result success error)
      else mret tt
  | timeout i => listener (on_timeout i)
  end.

Definition step (w : world) (e : event) : world := exec (handle e) w.

Definition run (w : world) (es : list event) : world := fold_left step es w.

(** *** The catalog of tags *)

(** The class [[a-f0-9-]] *)
Definition is_tag_char (c : N) : bool :=
  ((97 <=? c) && (c <=? 102)) || ((48 <=? c) && (c <=? 57)) || (c =? 45).

(** [href.match(/tag=([a-f0-9-]+)/)], its first group: the expression is
    tried at each index from the left, and the group takes all it can. *)
Fixpoint match_tag (s : jsstring) : option jsstring :=
  match s with
  | [] => None
  | _ :: r =>
      if starts_with (lit "tag=") s then
        match take_while is_tag_char (drop 4 s) with
        | [] => match_tag r
        | m => Some m
        end
      else match_tag r
  end.

(** The body of the [forEach] of [collectAllTags], on one button. *)
Definition tag_of_button (btn : node) : option Tag.t :=
  match btn with
  | Elem _ _ attrs _ =>
      match getAttribute "href" attrs with
      | Some href =>
          if truthy href && includes (lit "tag=") href then
            match match_tag href with
            | Some m =>
                Some {| Tag.uuid := m; Tag.title := trim (textContent btn) |}
            | None => None
            end
          else None
      | None => None
      end
  | Text _ => None
  end.

(** [collectAllTags()], on the body of the document. *)
Definition collectAllTags (body : list node) : list Tag.t :=
  omap tag_of_button (flat_map (select_tag_buttons false) body).

(** [new InlineEdit(table, socket)] on a page, with the tags that
    [collectAllTags] found in the tag filter bar. *)
Definition new (has_socket : bool) (tags : list Tag.t) (d : document) : world :=
  {| this := {| socket := has_socket; activeEdit := None;
                activePopover := None; allTags := tags;
                pendingUpdates := ∅ |};
     page := d; sent := []; timers := [] |}.

End InlineEdit.

Import InlineEdit.

(** ** A page to run the controller on

    One watch (row 0) with its four editable cells and its two toggle
    buttons, and a catalog of two tags. *)

Module Demo.

Definition row0 : Row :=
  {| r_data :=
       <["watchUuid"%string := lit "a1f0"]>
         (<["watchTitle"%string := lit "Foo"]>
            (<["intervalHours"%string := lit "1"]> ∅));
     r_classes := [];
     r_status_dot := Some (lit "status-dot status-ok");
     r_status_text := Some (lit "OK") |}.

Definition title_cell : Cell :=
  {| c_row := 0; c_field := Some (lit "title"); c_classes := [];
     c_html := [Elem "span" ["title-text"%string] [] [Text (lit "Foo")]];
     c_input := None |}.

Definition words_cell : Cell :=
  {| c_row := 0; c_field := Some (lit "watch_words"); c_classes := [];
     c_html := [Elem "span" ["words-summary"%string] []
                  [Elem "span" ["no-words"%string] [] [Text (lit "None")]]];
     c_input := None |}.

Definition interval_cell : Cell :=
  {| c_row := 0; c_field := Some (lit "time_between_check"); c_classes := [];
     c_html := [Elem "span" ["interval-text"%string] [] [Text (lit "1h")]];
     c_input := None |}.

Definition tags_cell : Cell :=
  {| c_row := 0; c_field := Some (lit "tags"); c_classes := [];
     c_html := [Elem "div" ["tags-list"%string] [] no_tags];
     c_input := None |}.

Definition pause_btn : Button :=
  {| b_row := 0; b_op := Some (lit "pause");
     b_html := [Text [10074; 10074]]; b_title := Some (lit "Pause") |}.

Definition notify_btn : Button :=
  {| b_row := 0; b_op := Some (lit "mute");
     b_html := [Elem "span" ["notify-active"%string] [] [Text [55357; 56596]]];
     b_title := Some (lit "Mute notifications") |}.

Definition page0 : document :=
  {| rows := {[ 0%nat := row0 ]};
     cells := <[0%nat := title_cell]> (<[1%nat := words_cell]>
                (<[2%nat := interval_cell]> {[ 3%nat := tags_cell ]}));
     buttons := <[0%nat := pause_btn]> {[ 1%nat := notify_btn ]};
     popovers := []; toasts := []; activeElement := None; next_id := 0 |}.

Definition catalog : list Tag.t :=
  [ {| Tag.uuid := lit "aa"; Tag.title := lit "News" |};
    {| Tag.uuid := lit "bb"; Tag.title := lit "Shop" |} ].

(** The tag filter bar of the page: the button of all the watches,
    which is the active one, and a button for each tag. *)
Definition filter_bar : list node :=
  [Elem "div" ["tag-filter-bar"%string] []
     [Elem "a" ["button-tag"%string; "active"%string]
        [("href"%string, lit "/")] [Text (lit "All")];
      Elem "a" ["button-tag"%string]
        [("href"%string, lit "/?tag=aa")] [Text (lit " News ")];
      Elem "a" ["button-tag"%string]
        [("title"%string, lit "Shops"); ("href"%string, lit "/?tag=bb&page=2")]
        [Text (lit "Shop")]]].

(** A page whose cells lack what the controller looks for in them: a
    title cell and a tags cell of plain text in the row of [row0], a
    title cell in a row that has no title, and a cell of a field that
    is not edited.  The controller is on it with a socket, and
    without. *)
Definition row1 : Row :=
  {| r_data := {[ "watchUuid"%string := lit "b2e1" ]};
     r_classes := [];
     r_status_dot := None;
     r_status_text := None |}.

Definition bare_title_cell : Cell :=
  {| c_row := 0; c_field := Some (lit "title"); c_classes := [];
     c_html := [Text (lit "Foo")]; c_input := None |}.

Definition status_cell : Cell :=
  {| c_row := 0; c_field := Some (lit "status"); c_classes := [];
     c_html := [Text (lit "OK")]; c_input := None |}.

Definition untitled_cell : Cell :=
  {| c_row := 1; c_field := Some (lit "title"); c_classes := [];
     c_html := [Text (lit "https://example.com")]; c_input := None |}.

Definition bare_tags_cell : Cell :=
  {| c_row := 0; c_field := Some (lit "tags"); c_classes := [];
     c_html := [Text (lit "-")]; c_input := None |}.

Definition page1 : document :=
  {| rows := <[0%nat := row0]> {[ 1%nat := row1 ]};
     cells := <[0%nat := bare_title_cell]> (<[1%nat := status_cell]>
                (<[2%nat := untitled_cell]> {[ 3%nat := bare_tags_cell ]}));
     buttons := ∅;
     popovers := []; toasts := []; activeElement := None; next_id := 0 |}.

Definition w_bare : world := new true catalog page1.

Definition w_offline : world := new false catalog page1.

(** The controller on that page, with a socket. *)
Definition w0 : world := new true catalog page0.

End Demo.

(** * Properties *)

(** ** Vocabulary

    The notions that the statements below are written with. *)

(** A line is blank when it has white space only. *)
Definition blank (l : jsstring) : bool := forallb is_space l.

(** A string with no white space at either end, and not empty. *)
Definition trimmed (w : jsstring) : Prop :=
  w <> [] /\
  (forall c, head w = Some c -> is_space c = false) /\
  (forall c, last w = Some c -> is_space c = false).

(** The lines of the claim: the lines that are not blank, each trimmed,
    in the order of the input. *)
Definition trimmed_lines (s : jsstring) : list jsstring :=
  map trim (List.filter (fun l => negb (blank l)) (split 10 s)).

(** The message of the toast: the error of the server, the fallback
    when it has none (or an empty one). *)
Definition failure_message (error : option jsstring) : jsstring :=
  match error with
  | Some (c :: m) => c :: m
  | _ => lit "Update failed"
  end.

(** The value that a title edit session started from. *)
Definition session_value (w : world) : option jsstring :=
  e ← activeEdit (this w); Edit.originalValue e.

(** What [patch_in] does to the element that [find_in] finds. *)
Definition patched_in (c : string) (f : list node -> list node) (n : node)
  : Prop :=
  match find_in c n with
  | Some (Elem t cls at_ ks) =>
      exists n', patch_in c f n = Some n' /\
                 find_in c n' = Some (Elem t cls at_ (f ks))
  | Some (Text _) => False
  | None => patch_in c f n = None
  end.

Definition patched (c : string) (f : list node -> list node)
  (l : list node) : Prop :=
  match querySelector c l with
  | Some (Elem t cls at_ ks) =>
      exists l', patch c f l = Some l' /\
                 querySelector c l' = Some (Elem t cls at_ (f ks))
  | Some (Text _) => False
  | None => patch c f l = None
  end.

(** The label that the catalog has for an identifier: the title of its
    first entry of that identifier. *)
Fixpoint label_of (all : list Tag.t) (id : jsstring) : option jsstring :=
  match all with
  | [] => None
  | t :: rest =>
      if bool_decide (Tag.uuid t = id) then Some (Tag.title t)
      else label_of rest id
  end.

(** The labels of the catalog for the identifiers that it has, in the
    order of the identifiers. *)
Definition catalog_labels (all : list Tag.t) (tagUuids : list jsstring)
  : list jsstring :=
  omap (label_of all) tagUuids.



(** [Number.MAX_SAFE_INTEGER]: up to it, the integers are doubles, and
    so are the quotients and the remainders the code takes of them. *)
Definition MAX_SAFE_INTEGER : Z := 2 ^ 53 - 1.

(** The four actions of a toggle button, with what the claim says of
    each: its name, the operation sent for it, the name the button takes
    and the class of the row that it sets or clears. *)
Inductive toggle_op := Pause | Unpause | Mute | Unmute.

Definition op_name (o : toggle_op) : jsstring :=
  match o with
  | Pause => lit "pause" | Unpause => lit "unpause"
  | Mute => lit "mute" | Unmute => lit "unmute"
  end.

Definition op_normalized (o : toggle_op) : jsstring :=
  match o with
  | Pause | Unpause => lit "pause"
  | Mute | Unmute => lit "mute"
  end.

Definition op_flipped (o : toggle_op) : jsstring :=
  match o with
  | Pause => lit "unpause" | Unpause => lit "pause"
  | Mute => lit "unmute" | Unmute => lit "mute"
  end.

Definition op_class (o : toggle_op) : string :=
  match o with
  | Pause | Unpause => "paused"
  | Mute | Unmute => "notification_muted"
  end.

Definition op_sets_class (o : toggle_op) : bool :=
  match o with
  | Pause | Mute => true
  | Unpause | Unmute => false
  end.

(** [triple P m Q]: from a world of [P], the method leaves a world of
    [Q], whether it returns or throws. *)
Definition triple {A} (P : world -> Prop) (m : M A) (Q : world -> Prop)
  : Prop :=
  forall w, P w -> Q (exec m w).

(** [keeps R m]: the world the method leaves is related by [R] to the
    one it started from. *)
Definition keeps (R : relation world) {A} (m : M A) : Prop :=
  forall w, R w (exec m w).

Definition popover_ids (w : world) : list nat := map p_id (popovers (page w)).

(** What the popovers see of a step that opens and closes none: the
    same popovers, the same active one, no identifier given back. *)
Definition popover_frame (w w' : world) : Prop :=
  popover_ids w' = popover_ids w /\
  activePopover (this w') = activePopover (this w) /\
  (next_id (page w) <= next_id (page w'))%nat.

(** What the session sees of a step that leaves it alone: the same
    session too, and the focus where it was, unless it was in a text
    input that the step removed. *)
Definition focus_frame (a a' : option focus_target) : Prop :=
  a' = a \/ ((exists c, a = Some (FInput c)) /\ a' = None).

Definition session_frame (w w' : world) : Prop :=
  popover_frame w w' /\
  activeEdit (this w') = activeEdit (this w) /\
  focus_frame (activeElement (page w)) (activeElement (page w')).

(** The popovers in the document are the active one, if there is one,
    and their identifiers were handed out already. *)
Definition one_popover (w : world) : Prop :=
  popover_ids w = option_list (activePopover (this w)) /\
  Forall (fun p => (p < next_id (page w))%nat) (popover_ids w).

(** The worlds that the controller reaches from its construction on a
    page without popovers, by any events. *)
Inductive reachable : world -> Prop :=
| reachable_new (has_socket : bool) (tags : list Tag.t) (d : document) :
    popovers d = [] -> reachable (new has_socket tags d)
| reachable_step (w : world) (e : event) :
    reachable w -> reachable (step w e).

(** Relative to a session [s]: it is still the open one, or no session
    and no popover is open and the focus is on the cell of [s]. *)
Definition open_or_closed (s : Edit.t) (w : world) : Prop :=
  activeEdit (this w) = Some s \/
  (activeEdit (this w) = None /\
   activePopover (this w) = None /\
   activeElement (page w) = Some (FCell (Edit.cell s))).


(** The value of a decimal numeral read from the left, after the value
    [acc] of what was read before. *)
Fixpoint uint_value (d : Decimal.uint) (acc : Z) : Z :=
  match d with
  | Decimal.Nil => acc
  | Decimal.D0 d => uint_value d (10 * acc + 0)
  | Decimal.D1 d => uint_value d (10 * acc + 1)
  | Decimal.D2 d => uint_value d (10 * acc + 2)
  | Decimal.D3 d => uint_value d (10 * acc + 3)
  | Decimal.D4 d => uint_value d (10 * acc + 4)
  | Decimal.D5 d => uint_value d (10 * acc + 5)
  | Decimal.D6 d => uint_value d (10 * acc + 6)
  | Decimal.D7 d => uint_value d (10 * acc + 7)
  | Decimal.D8 d => uint_value d (10 * acc + 8)
  | Decimal.D9 d => uint_value d (10 * acc + 9)
  end%Z.

(** The fields that are edited in a popover, and their editors. *)
Inductive popover_field := WatchWords | TimeBetweenCheck | TagList.

Definition editor (f : popover_field) : nat -> option jsstring -> nat -> M unit :=
  match f with
  | WatchWords => editWatchWords
  | TimeBetweenCheck => editInterval
  | TagList => editTags
  end.

(** [cell.focus()] at the end of the session [e] takes the focus from
    no text input: if the focus is in a text input, it is the one of
    the cell of the session, and the session has markup to put back in
    its place, which removes the input first. *)
Definition input_goes_first (e : Edit.t) (w : world) : Prop :=
  forall c,
    activeElement (page w) = Some (FInput c) ->
    c = Edit.cell e /\
    exists h, Edit.originalHTML e = Some h /\ h <> [].

(** The target of the event is in the document. *)
Definition target_present (tgt : target) (w : world) : Prop :=
  match tgt with
  | in_input c => is_Some (input_attached c (page w))
  | in_popover p => is_Some (find_popover p (page w))
  | in_cell _ | elsewhere => True
  end.

(** Every toast in the document has the timer that removes it. *)
Definition toasts_timed (w : world) : Prop :=
  forall t m, In (t, m) (toasts (page w)) -> In (remove_toast t) (timers w).

(** A step that shows and removes no toast and drops no timer. *)
Definition toast_frame (w w' : world) : Prop :=
  toasts (page w') = toasts (page w) /\ incl (timers w) (timers w').

(** An occurrence of the expression of [match_tag] after [pre]: [tag=],
    then an identifier of one character or more of the class. *)
Definition tag_at (s pre id post : jsstring) : Prop :=
  s = pre ++ lit "tag=" ++ id ++ post /\
  id <> [] /\
  forallb is_tag_char id = true.

(** An identifier that can stand between double quotes and between
    commas. *)
Definition plain_identifier (id : jsstring) : Prop :=
  id <> [] /\ ~ In 44 id /\ ~ In 34 id /\ forallb is_tag_char id = true.



(** ** Strings *)

Section Strings.

Implicit Types (s l w : jsstring) (c : N).

Lemma trimStart_blank s : trimStart s = [] <-> blank s = true.
Proof.
  induction s as [|c r IH]; simpl; [tauto|].
  destruct (is_space c); simpl; [exact IH|].
  split; intros H; discriminate H.
Qed.

(** [trimStart] drops a prefix of white space. *)
Lemma trimStart_split s :
  exists p, s = p ++ trimStart s /\ blank p = true.
Proof.
  induction s as [|c r [p [Hs Hp]]]; simpl.
  - exists []. auto.
  - destruct (is_space c) eqn:Hc.
    + exists (c :: p). simpl. rewrite Hc, Hp. split; [congruence | reflexivity].
    + exists []. auto.
Qed.

Lemma trimStart_head s c r : trimStart s = c :: r -> is_space c = false.
Proof.
  induction s as [|a t IH]; simpl; [discriminate|].
  destruct (is_space a) eqn:Ha; [exact IH|].
  intros [= <- _]. exact Ha.
Qed.

Lemma blank_app p q : blank (p ++ q) = blank p && blank q.
Proof. apply forallb_app. Qed.

Lemma blank_rev s : blank (rev s) = blank s.
Proof.
  induction s as [|c r IH]; simpl; [reflexivity|].
  rewrite blank_app, IH. simpl. rewrite andb_true_r. apply andb_comm.
Qed.

Lemma trim_blank s : trim s = [] <-> blank s = true.
Proof.
  unfold trim, trimEnd. split.
  - intros H. apply (f_equal (@rev N)) in H. rewrite rev_involutive in H.
    simpl in H. apply trimStart_blank in H. rewrite blank_rev in H.
    destruct (trimStart s) as [|c r] eqn:E.
    + apply trimStart_blank. exact E.
    + apply trimStart_head in E. simpl in H. rewrite E in H. discriminate H.
  - intros H. apply trimStart_blank in H. rewrite H. reflexivity.
Qed.

Lemma truthy_trim s : truthy (trim s) = negb (blank s).
Proof.
  destruct (blank s) eqn:B.
  - apply trim_blank in B. rewrite B. reflexivity.
  - destruct (trim s) eqn:T; [|reflexivity].
    apply trim_blank in T. congruence.
Qed.

Lemma head_app_l (p q : jsstring) c : head p = Some c -> head (p ++ q) = Some c.
Proof. destruct p; simpl; [discriminate | auto]. Qed.

Lemma last_rev_head s : last (rev s) = head s.
Proof. destruct s as [|c r]; [reflexivity|]. simpl. apply last_snoc. Qed.

Lemma head_rev_last s : head (rev s) = last s.
Proof. rewrite <- (rev_involutive s) at 2. symmetry. apply last_rev_head. Qed.

Lemma trim_trimmed s : trim s <> [] -> trimmed (trim s).
Proof.
  intros Hne. split; [exact Hne|]. unfold trim, trimEnd in *.
  set (t := trimStart s) in *.
  destruct (trimStart_split (rev t)) as [p [Hp Bp]].
  set (u := trimStart (rev t)) in *.
  split; intros c Hc.
  - (* the first code unit is the first of [trimStart s] *)
    assert (Ht : t = rev u ++ rev p).
    { rewrite <- rev_app_distr, <- Hp, rev_involutive. reflexivity. }
    apply head_app_l with (q := rev p) in Hc. rewrite <- Ht in Hc.
    destruct t as [|a r] eqn:Et; [discriminate|].
    simpl in Hc. injection Hc as ->.
    apply (trimStart_head s c r). exact Et.
  - (* the last one is the first of [trimStart (rev t)] *)
    rewrite last_rev_head in Hc.
    destruct u as [|a r] eqn:Eu; [discriminate|].
    simpl in Hc. injection Hc as ->.
    apply (trimStart_head (rev t) c r). exact Eu.
Qed.

(** The pieces of [split] are the lines: joined again they give the
    string, and none holds a line feed. *)
Lemma split_not_nil sep s : split sep s <> [].
Proof.
  destruct s as [|c r]; simpl; [discriminate|].
  destruct (c =? sep); [discriminate|].
  destruct (split sep r); discriminate.
Qed.

Lemma join_split sep s : join [sep] (split sep s) = s.
Proof.
  induction s as [|c r IH]; simpl; [reflexivity|].
  destruct (N.eqb_spec c sep) as [->|Hne].
  - pose proof (split_not_nil sep r) as Hn.
    destruct (split sep r) as [|h t] eqn:E; [congruence|].
    simpl in *. rewrite IH. reflexivity.
  - pose proof (split_not_nil sep r) as Hn.
    destruct (split sep r) as [|h t] eqn:E; [congruence|].
    destruct t as [|h' t']; simpl in *; rewrite <- IH; reflexivity.
Qed.

Lemma split_no_sep sep s : Forall (fun l => ~ In sep l) (split sep s).
Proof.
  induction s as [|c r IH]; simpl.
  - constructor; [intros [] | constructor].
  - destruct (N.eqb_spec c sep) as [->|Hne].
    + constructor; [intros [] | exact IH].
    + destruct (split sep r) as [|h t]; [constructor; [|constructor]|].
      * intros [H|[]]. congruence.
      * inversion IH as [|? ? Hh Ht]; subst. constructor; [|exact Ht].
        intros [H|H]; [congruence | exact (Hh H)].
Qed.

Lemma filter_map_trim (ls : list jsstring) :
  List.filter truthy (map trim ls)
  = map trim (List.filter (fun l => negb (blank l)) ls).
Proof.
  induction ls as [|l r IH]; simpl; [reflexivity|].
  rewrite truthy_trim. destruct (negb (blank l)); simpl; rewrite IH; reflexivity.
Qed.

Lemma words_of_trimmed_lines s : words_of s = trimmed_lines s.
Proof. apply filter_map_trim. Qed.

Lemma trimmed_lines_trimmed s : Forall trimmed (trimmed_lines s).
Proof.
  unfold trimmed_lines. apply Forall_forall. intros w Hw.
  apply list_elem_of_In in Hw. apply in_map_iff in Hw. destruct Hw as [l [<- Hl]].
  apply filter_In in Hl. destruct Hl as [_ Hb].
  apply trim_trimmed. intros T. apply trim_blank in T.
  rewrite T in Hb. discriminate Hb.
Qed.

End Strings.

(** ** Running the methods symbolically *)

(** Unfolds the monad and the field updates, so that a method applied
    to a world becomes the world it leaves. *)
Ltac run_m :=
  cbv beta iota zeta delta
    [step run handle listener exec returns mbind mret M_bind M_ret throw
     get_this get_page modify_this modify_page emit setTimeout
     get_cell get_row get_button update_cell update_row update_button
     set_innerHTML focus showSuccess showError remove_popover closePopover
     cancelEdit createPopover set_onclick pending_set
     editTitle show_title saveTitle saveHandler
     editWatchWords set_part saveWatchWords save_words_click
     editInterval saveInterval save_interval_click
     editTags saveTags save_tags_click toggleOperation startEdit
     on_table_click on_table_keydown on_document_keydown on_document_click
     on_document_click_at on_toggle_click on_input_keydown on_popover_keydown
     on_save_click on_cancel_click on_update_result on_operation_result
     run_callback on_timeout set_form
     with_activeEdit with_activePopover with_pendingUpdates with_rows
     with_cells with_buttons with_popovers with_toasts with_activeElement
     with_next_id unfocus];
  cbn beta iota zeta delta
    [this page sent timers socket activeEdit activePopover allTags
     pendingUpdates rows cells buttons popovers toasts activeElement next_id
     fst snd].

(** Reads through the cell updates. *)
Ltac dom_simpl :=
  cbn beta iota zeta delta
    [fmap option_fmap option_map cell_html cell_classes cell_input
     c_html c_row c_input c_classes c_field html_or_undefined].

Ltac destruct_world w :=
  let t := fresh "t" in
  let d := fresh "d" in
  destruct w as [t d ? ?]; destruct t; destruct d.

(** ** Acknowledgements *)

(** C10: a failed [update_result] for a watch that has no pending entry
    shows no toast and leaves the controller and the page as they
    were. *)
Theorem update_failure_without_pending_ignored
  (w : world) (uuid error : option jsstring) :
  pendingUpdates (this w) !! uuid = None ->
  step w (update_result false uuid error) = w.
Proof.
  destruct_world w. run_m. intros H.
  destruct socket0; run_m; [|reflexivity]. rewrite H. reflexivity.
Qed.

Lemma update_failure_without_pending_ignored_witness :
  step Demo.w0 (update_result false (Some (lit "a1f0")) (Some (lit "disk full")))
  = Demo.w0.
Proof.
  apply (update_failure_without_pending_ignored Demo.w0). reflexivity.
Defined.

(** C6: a failed [update_result] for a watch with a pending entry shows
    a toast with the error of the server, or with 'Update failed', and
    removes the entry; the cells, the rows and the buttons stay as the
    optimistic update left them. *)
Theorem update_failure_with_pending
  (w : world) (uuid error : option jsstring) (p : Pending.t) :
  pendingUpdates (this w) !! uuid = Some p ->
  let w' := exec (on_update_result false uuid error) w in
  returns (on_update_result false uuid error) w /\
  toasts (page w')
    = toasts (page w) ++ [(next_id (page w), failure_message error)] /\
  pendingUpdates (this w') = delete uuid (pendingUpdates (this w)) /\
  pendingUpdates (this w') !! uuid = None /\
  cells (page w') = cells (page w) /\
  rows (page w') = rows (page w) /\
  buttons (page w') = buttons (page w) /\
  popovers (page w') = popovers (page w) /\
  activeEdit (this w') = activeEdit (this w) /\
  sent w' = sent w.
Proof.
  destruct_world w. run_m. intros H. rewrite H. run_m.
  repeat split; try reflexivity.
  - eexists; reflexivity.
  - destruct error as [[|c m]|]; reflexivity.
  - apply lookup_delete_eq.
Qed.

(** ** Title *)

(** What [editTitle] leaves: a session on the cell with the markup and
    the value of before, and the cell holding the text input. *)
Lemma editTitle_session (w : world) (c r : nat) (uuid : option jsstring)
  (x : Cell) :
  cells (page w) !! c = Some x ->
  returns (editTitle c uuid r) w ->
  exists v,
    activeEdit (this (exec (editTitle c uuid r) w))
      = Some {| Edit.cell := c; Edit.uuid := uuid; Edit.field := "title";
                Edit.originalHTML := Some (innerHTML x);
                Edit.originalValue := Some v |} /\
    cells (page (exec (editTitle c uuid r) w)) !! c
      = Some {| c_row := c_row x; c_field := c_field x;
                c_classes := class_add "editing" (c_classes x);
                c_html := []; c_input := Some v |} /\
    sent (exec (editTitle c uuid r) w) = sent w /\
    timers (exec (editTitle c uuid r) w) = timers w /\
    pendingUpdates (this (exec (editTitle c uuid r) w))
      = pendingUpdates (this w).
Proof.
  intros Hx Hr. unfold exec, returns in *.
  destruct (editTitle c uuid r w) as [w' o] eqn:E. cbn [fst snd] in *.
  destruct Hr as [[] ->]. revert E Hx. destruct_world w. run_m.
  intros E Hx. rewrite Hx in E. revert E. run_m.
  destruct (rows0 !! r) as [rw|]; run_m; [|intros [=]].
  assert (Hc : forall v : jsstring,
    alter (cell_input v) c
      (alter (cell_html []) c
         (alter (cell_classes (class_add "editing")) c cells0)) !! c
    = Some {| c_row := c_row x; c_field := c_field x;
              c_classes := class_add "editing" (c_classes x);
              c_html := []; c_input := Some v |}).
  { intros v. rewrite !lookup_alter_eq, Hx. reflexivity. }
  destruct (r_data rw !! "watchTitle"%string) as [v|];
    [destruct (truthy v)|]; run_m.
  1: intros [= <-]; eexists; repeat split; apply Hc.
  all: destruct (querySelector "title-text" (innerHTML x)); run_m;
    intros [= <-]; eexists; repeat split; apply Hc.
Qed.

(** What [saveTitle] does with a value that is the original one. *)
Lemma saveTitle_unchanged (w : world) (e : Edit.t) (h : list node)
  (value : jsstring) :
  activeEdit (this w) = Some e ->
  Edit.originalHTML e = Some h ->
  Edit.originalValue e = Some value ->
  let w' := exec (saveTitle value) w in
  returns (saveTitle value) w /\
  sent w' = sent w /\
  timers w' = timers w /\
  pendingUpdates (this w') = pendingUpdates (this w) /\
  activeEdit (this w') = None /\
  cells (page w')
    = alter (cell_classes (class_remove "editing")) (Edit.cell e)
        (alter (cell_html h) (Edit.cell e) (cells (page w))).
Proof.
  destruct_world w. run_m. intros -> Hh Hv. run_m.
  rewrite Hv, Hh, bool_decide_eq_true_2 by reflexivity. run_m.
  repeat split. eexists; reflexivity.
Qed.

(** With a session open, the handler of the text input saves the
    trimmed value. *)
Lemma saveHandler_active (w : world) (e : Edit.t) (input : jsstring) :
  activeEdit (this w) = Some e ->
  saveHandler input w = saveTitle (trim input) w.
Proof.
  destruct_world w. unfold saveHandler.
  cbv beta iota zeta delta [mbind M_bind get_this this activeEdit].
  intros ->. reflexivity.
Qed.

(** C1: a title edit whose submitted value, trimmed, is the original
    one emits nothing, records no pending update and puts the markup of
    the cell back to what it was before the edit. *)
Theorem title_unchanged_is_discarded
  (w : world) (c r : nat) (uuid : option jsstring) (x : Cell)
  (input : jsstring) :
  cells (page w) !! c = Some x ->
  returns (editTitle c uuid r) w ->
  let w1 := exec (editTitle c uuid r) w in
  session_value w1 = Some (trim input) ->
  let w2 := exec (saveHandler input) w1 in
  returns (saveHandler input) w1 /\
  sent w2 = sent w /\
  pendingUpdates (this w2) = pendingUpdates (this w) /\
  timers w2 = timers w /\
  innerHTML <$> cells (page w2) !! c = Some (innerHTML x) /\
  activeEdit (this w2) = None.
Proof.
  intros Hx Hr w1 Hv w2.
  destruct (editTitle_session w c r uuid x Hx Hr)
    as (v & He & Hc & Hs & Ht & Hp). fold w1 in He, Hc, Hs, Ht, Hp.
  unfold session_value in Hv. rewrite He in Hv. simpl in Hv.
  injection Hv as ->.
  destruct (saveTitle_unchanged w1 _ (innerHTML x) (trim input) He eq_refl eq_refl)
    as (Hr' & Hs' & Ht' & Hp' & He' & Hc').
  pose proof (saveHandler_active w1 _ input He) as Hsave.
  unfold w2, exec, returns in *. rewrite Hsave.
  repeat split; try congruence.
  rewrite Hc'. simpl. rewrite !lookup_alter_eq, Hc. simpl.
  unfold innerHTML at 1. simpl. rewrite app_nil_r. reflexivity.
Qed.

(** ** Markup *)

Section Markup.

(** Induction on markup, with the hypothesis for every child. *)
Lemma node_induction (P : node -> Prop) :
  (forall s, P (Text s)) ->
  (forall t cls at_ ks, Forall P ks -> P (Elem t cls at_ ks)) ->
  forall n, P n.
Proof.
  intros P_text P_elem. fix IH 1. intros [s|t cls at_ ks].
  - apply P_text.
  - apply P_elem. induction ks as [|k r IHr].
    + constructor.
    + constructor; [apply IH | exact IHr].
Qed.

Lemma find_in_elem c t cls at_ ks :
  find_in c (Elem t cls at_ ks)
  = if has_class c cls then Some (Elem t cls at_ ks) else querySelector c ks.
Proof.
  simpl. destruct (has_class c cls); [reflexivity|].
  induction ks as [|k r IH]; simpl; [reflexivity|].
  destruct (find_in c k); [reflexivity | exact IH].
Qed.

Lemma patch_in_elem c f t cls at_ ks :
  patch_in c f (Elem t cls at_ ks)
  = if has_class c cls then Some (Elem t cls at_ (f ks))
    else Elem t cls at_ <$> patch c f ks.
Proof.
  simpl. destruct (has_class c cls); [reflexivity|]. f_equal.
  induction ks as [|k r IH]; simpl; [reflexivity|].
  destruct (patch_in c f k); [reflexivity | rewrite IH; reflexivity].
Qed.

Lemma patched_of_children c f (l : list node) :
  Forall (patched_in c f) l -> patched c f l.
Proof.
  induction 1 as [|k r Hk _ IH]; unfold patched in *; simpl; [reflexivity|].
  unfold patched_in in Hk. destruct (find_in c k) as [[s|t cls at_ ks]|] eqn:E.
  - exact Hk.
  - destruct Hk as (n' & Hp & Hf). rewrite Hp. eexists. split; [reflexivity|].
    simpl. rewrite Hf. reflexivity.
  - rewrite Hk. destruct (querySelector c r) as [[s|t cls at_ ks]|].
    + exact IH.
    + destruct IH as (l' & Hp & Hq). rewrite Hp. eexists.
      split; [reflexivity|]. simpl. rewrite E. exact Hq.
    + rewrite IH. reflexivity.
Qed.

Lemma patch_in_spec c f n : patched_in c f n.
Proof.
  induction n as [s|t cls at_ ks IH] using node_induction.
  - reflexivity.
  - apply patched_of_children in IH. unfold patched_in, patched in *.
    rewrite find_in_elem, patch_in_elem.
    destruct (has_class c cls) eqn:Hc.
    + eexists. split; [reflexivity|]. rewrite find_in_elem, Hc. reflexivity.
    + destruct (querySelector c ks) as [[s|t' cls' at' ks']|].
      * exact IH.
      * destruct IH as (l' & Hp & Hq). rewrite Hp. eexists.
        split; [reflexivity|]. rewrite find_in_elem, Hc. exact Hq.
      * rewrite IH. reflexivity.
Qed.

Lemma patch_spec c f (l : list node) : patched c f l.
Proof.
  apply patched_of_children, Forall_forall. intros n _. apply patch_in_spec.
Qed.

(** [querySelector] finds elements only, and [patch] replaces the
    children of the element found. *)
Lemma patch_found c f (l : list node) n :
  querySelector c l = Some n ->
  exists t cls at_ ks l',
    n = Elem t cls at_ ks /\
    patch c f l = Some l' /\
    querySelector c l' = Some (Elem t cls at_ (f ks)).
Proof.
  intros H. pose proof (patch_spec c f l) as Hp. unfold patched in Hp.
  rewrite H in Hp. destruct n as [s|t cls at_ ks]; [contradiction|].
  destruct Hp as (l' & Hp & Hq). eauto 10.
Qed.

Lemma patch_not_found c f (l : list node) :
  querySelector c l = None -> patch c f l = None.
Proof.
  intros H. pose proof (patch_spec c f l) as Hp. unfold patched in Hp.
  rewrite H in Hp. exact Hp.
Qed.

Lemma textContent_text_nodes t cls at_ (s : jsstring) :
  textContent (Elem t cls at_ (text_nodes s)) = s.
Proof.
  destruct s as [|c r]; simpl; [reflexivity|]. f_equal. apply app_nil_r.
Qed.

End Markup.

(** The optimistic redisplay of a title: the text of [.title-text]
    becomes the value, or the original value when the value is empty,
    and the row caches the value. *)
Lemma show_title_spec (w : world) (c : nat) (x : Cell) (rw : Row)
  (h : list node) (n : node) (value : jsstring) (ov : option jsstring) :
  cells (page w) !! c = Some x ->
  rows (page w) !! c_row x = Some rw ->
  querySelector "title-text" h = Some n ->
  let w' := exec (show_title c (Some h) value ov) w in
  returns (show_title c (Some h) value ov) w /\
  (exists x',
     cells (page w') !! c = Some x' /\
     c_input x' = None /\
     textContent <$> querySelector "title-text" (c_html x')
       = Some (if truthy value then value else default [] ov)) /\
  r_data <$> rows (page w') !! c_row x
    = Some (<["watchTitle"%string := value]> (r_data rw)) /\
  sent w' = sent w /\
  activeEdit (this w') = activeEdit (this w).
Proof.
  destruct_world w. run_m. intros Hx Hr Hq.
  rewrite lookup_alter_eq, Hx. dom_simpl. run_m.
  destruct (patch_found "title-text"
              (fun _ => text_nodes (if truthy value then value else default [] ov))
              h n Hq) as (t & cls & at_ & ks & h' & -> & Hp & Hq').
  rewrite Hp. run_m. rewrite Hr. run_m.
  repeat split.
  - eexists; reflexivity.
  - eexists. split; [|split].
    + rewrite !lookup_alter_eq, Hx. reflexivity.
    + reflexivity.
    + dom_simpl. rewrite Hq'. dom_simpl.
      rewrite textContent_text_nodes. reflexivity.
  - rewrite lookup_alter_eq, Hr. reflexivity.
Qed.

(** C2, as the code has it: with a socket, a title edit that submits the
    empty string over a non-empty title emits [watch_update] with the
    empty title, tracks it as pending and leaves the session; the
    redisplay that the timer runs shows the prior title and caches the
    empty one in the row. *)
Theorem empty_title_is_sent_and_prior_title_shown
  (w : world) (e : Edit.t) (ov : jsstring) :
  activeEdit (this w) = Some e ->
  Edit.originalValue e = Some ov ->
  ov <> [] ->
  socket (this w) = true ->
  let k := restore_title (Edit.cell e) (Edit.originalHTML e) [] (Some ov) in
  let w' := exec (saveTitle []) w in
  returns (saveTitle []) w /\
  sent w' = sent w ++ [watch_update (Edit.uuid e) (Title [])] /\
  timers w' = timers w ++ [k] /\
  is_Some (pendingUpdates (this w') !! Edit.uuid e) /\
  activeEdit (this w') = None /\
  forall (w1 : world) (x : Cell) (rw : Row) (h : list node) (n : node),
    cells (page w1) !! Edit.cell e = Some x ->
    rows (page w1) !! c_row x = Some rw ->
    Edit.originalHTML e = Some h ->
    querySelector "title-text" h = Some n ->
    let w2 := exec (run_callback k) w1 in
    (exists x',
       cells (page w2) !! Edit.cell e = Some x' /\
       textContent <$> querySelector "title-text" (c_html x') = Some ov) /\
    r_data <$> rows (page w2) !! c_row x
      = Some (<["watchTitle"%string := []]> (r_data rw)).
Proof.
  intros He Hv Hne Hs k w'. split; [|split; [|split; [|split; [|split]]]].
  1-5: subst k w'; destruct_world w; revert He Hs; run_m; intros -> ->;
    run_m; rewrite Hv;
    rewrite bool_decide_eq_false_2 by (intros [= <-]; congruence); run_m.
  - eexists; reflexivity.
  - reflexivity.
  - reflexivity.
  - rewrite lookup_insert_eq. eexists; reflexivity.
  - reflexivity.
  - intros w1 x rw h n Hx Hr Hh Hq w2. subst w2 k. rewrite Hh.
    destruct (show_title_spec w1 (Edit.cell e) x rw h n [] (Some ov) Hx Hr Hq)
      as (_ & (x' & Hx' & _ & Ht) & Hd & _).
    split; [exists x'; split; [exact Hx' | exact Ht] | exact Hd].
Qed.

(** ** Popover editors *)

(** Case analysis on every test a method makes, running it to its end. *)
Ltac crunch :=
  repeat (run_m; dom_simpl;
          match goal with
          | |- context [match ?x with _ => _ end] =>
              lazymatch x with
              | context [match _ with _ => _ end] => fail
              | _ => destruct x eqn:?
              end
          end);
  run_m; dom_simpl.

(** What each save routine sends, whether or not it goes on to redraw
    the cell. *)
Lemma saveInterval_sent (w : world) (uuid : option jsstring)
  (value : jsstring) (r c : nat) :
  socket (this w) = true ->
  sent (exec (saveInterval uuid value r c) w)
  = sent w ++ [watch_update uuid (interval_updates value)].
Proof. destruct_world w. run_m. intros ->. crunch; reflexivity. Qed.

Lemma saveWatchWords_sent (w : world) (uuid : option jsstring)
  (blockWords triggerWords : list jsstring) (r c : nat) :
  socket (this w) = true ->
  sent (exec (saveWatchWords uuid blockWords triggerWords r c) w)
  = sent w ++ [watch_update uuid (Words blockWords triggerWords)].
Proof. destruct_world w. run_m. intros ->. crunch; reflexivity. Qed.

Lemma saveTags_sent (w : world) (uuid : option jsstring)
  (tagUuids : list jsstring) (r c : nat) :
  socket (this w) = true ->
  sent (exec (saveTags uuid tagUuids r c) w)
  = sent w ++ [watch_update uuid (Tags tagUuids)].
Proof. destruct_world w. run_m. intros ->. crunch; reflexivity. Qed.

(** Without a socket they send nothing. *)
Lemma save_without_socket (w : world) (uuid : option jsstring) (r c : nat) :
  socket (this w) = false ->
  (forall value, sent (exec (saveInterval uuid value r c) w) = sent w) /\
  (forall b t, sent (exec (saveWatchWords uuid b t r c) w) = sent w) /\
  (forall tags, sent (exec (saveTags uuid tags r c) w) = sent w).
Proof.
  destruct_world w. run_m. intros ->.
  repeat split; intros; crunch; reflexivity.
Qed.

(** C3: saving one of the preset intervals [v] of the dropdown emits
    [watch_update] with [time_between_check_use_default: false] and
    [time_between_check] of [floor(v/60)] hours and [v mod 60] minutes,
    the weeks, days and seconds being zero. *)
Theorem preset_interval_payload
  (w : world) (k : closure) (v : Z) (custom_minutes : jsstring) :
  In v presets ->
  socket (this w) = true ->
  sent (exec (save_interval_click k (num_to_string (Int v)) custom_minutes) w)
  = sent w ++
    [watch_update (k_uuid k)
       (Interval false (Some
          {| weeks := Int 0; days := Int 0; hours := Int (v / 60);
             minutes := Int (v mod 60); seconds := Int 0 |}))].
Proof.
  intros Hv Hs. unfold save_interval_click.
  unfold presets in Hv. simpl in Hv.
  repeat (destruct Hv as [<-|Hv];
          [rewrite saveInterval_sent by exact Hs; reflexivity|]).
  contradiction.
Qed.

(** C4: the Save button of the watch words popover emits, for any two
    texts of the textareas, the lines of each that are not blank, each
    trimmed, in the order of the text. *)
Theorem words_payload_is_trimmed_lines
  (w : world) (k : closure) (block_words trigger_words : jsstring) :
  socket (this w) = true ->
  sent (exec (save_words_click k block_words trigger_words) w)
  = sent w ++
    [watch_update (k_uuid k)
       (Words (trimmed_lines block_words) (trimmed_lines trigger_words))] /\
  Forall trimmed (trimmed_lines block_words) /\
  Forall trimmed (trimmed_lines trigger_words).
Proof.
  intros Hs. unfold save_words_click.
  rewrite saveWatchWords_sent by exact Hs.
  rewrite !words_of_trimmed_lines.
  auto using trimmed_lines_trimmed.
Qed.






(** An identifier that the catalog does not have adds no label. *)
Lemma catalog_labels_absent (all : list Tag.t) (a b : list jsstring)
  (id : jsstring) :
  Forall (fun t => Tag.uuid t <> id) all ->
  catalog_labels all (a ++ id :: b) = catalog_labels all (a ++ b).
Proof.
  intros H. unfold catalog_labels. rewrite !omap_app. simpl.
  replace (label_of all id) with (@None jsstring); [reflexivity|].
  induction H as [|t rest Ht _ IH]; [reflexivity|].
  cbn [label_of]. rewrite bool_decide_eq_false_2 by exact Ht. exact IH.
Qed.


(** The identifiers that the Save button of the tags popover passes on
    are the values of the checked boxes, in the order of the boxes. *)
Lemma save_tags_click_checked (k : closure) (boxes : list (jsstring * bool)) :
  save_tags_click k boxes
  = saveTags (k_uuid k) (checked_values boxes) (k_row k) (k_cell k).
Proof. reflexivity. Qed.

(** ** Pause and mute *)

Lemma class_add_in (c : string) (cls : list string) : c ∈ class_add c cls.
Proof.
  unfold class_add, has_class. case_bool_decide as H; [exact H|].
  apply elem_of_app. right. apply list_elem_of_singleton. reflexivity.
Qed.

Lemma class_remove_not_in (c : string) (cls : list string) :
  c ∉ class_remove c cls.
Proof.
  unfold class_remove. intros H. apply list_elem_of_filter in H.
  destruct H as [H _]. apply H. reflexivity.
Qed.

(** Decides the comparisons of string literals in the goal. *)
Ltac decide_lits :=
  repeat match goal with
  | |- context [@bool_decide (?a = ?b) ?d] =>
      let v := eval vm_compute in (@bool_decide (a = b) d) in
      lazymatch v with
      | true => idtac
      | false => idtac
      end;
      change (@bool_decide (a = b) d) with v
  end.

(** C8: a click on a toggle button whose action is pause, unpause, mute
    or unmute emits [watch_operation] with the action normalized and the
    identifier of the row, flips the action of the button, and sets
    (pause, mute) or clears (unpause, unmute) the class of the row. *)
Theorem toggle_emits_and_flips
  (w : world) (btn : nat) (b : Button) (rw : Row) (o : toggle_op) :
  socket (this w) = true ->
  buttons (page w) !! btn = Some b ->
  rows (page w) !! b_row b = Some rw ->
  b_op b = Some (op_name o) ->
  let w' := exec (on_toggle_click btn) w in
  returns (on_toggle_click btn) w /\
  sent w'
  = sent w ++
    [watch_operation (Some (op_normalized o))
       (r_data rw !! "watchUuid"%string)] /\
  exists b' rw',
    buttons (page w') !! btn = Some b' /\
    b_op b' = Some (op_flipped o) /\
    rows (page w') !! b_row b = Some rw' /\
    if op_sets_class o then op_class o ∈ r_classes rw'
    else op_class o ∉ r_classes rw'.
Proof.
  intros Hs Hb Hr Ho w'. subst w'. unfold exec, returns.
  destruct (on_toggle_click btn w) as [w' res] eqn:E. cbn [fst snd].
  revert E Hs Hb Hr. destruct_world w. run_m. intros E -> Hb Hr. revert E.
  rewrite Hb. run_m. rewrite Hr. run_m. rewrite Ho.
  destruct o; cbn [op_name op_normalized op_flipped op_class op_sets_class];
    decide_lits; run_m; intros [= <- <-]; run_m;
    (split; [eexists; reflexivity|]); (split; [reflexivity|]);
    eexists _, _; rewrite !lookup_alter_eq, Hb, Hr;
    (split; [reflexivity|]); (split; [reflexivity|]);
    (split; [reflexivity|]);
    cbn [row_status row_classes r_classes];
    auto using class_add_in, class_remove_not_in.
Qed.

(** ** Invariants of the event loop *)

Section Triples.

Context {A B : Type}.

Lemma exec_bind (m : M A) (f : A -> M B) (w : world) :
  exec (m ≫= f) w
  = match snd (m w) with
    | Some a => exec (f a) (exec m w)
    | None => exec m w
    end.
Proof.
  unfold exec, mbind, M_bind. destruct (m w) as [w' [a|]]; reflexivity.
Qed.

Lemma triple_bind (P R Q : world -> Prop) (m : M A) (f : A -> M B) :
  triple P m R ->
  (forall a, triple R (f a) Q) ->
  (forall w, R w -> Q w) ->
  triple P (m ≫= f) Q.
Proof.
  intros Hm Hf HRQ w HP. rewrite exec_bind. specialize (Hm w HP).
  destruct (snd (m w)); [apply Hf; exact Hm | apply HRQ; exact Hm].
Qed.

Lemma triple_inv_bind (I : world -> Prop) (m : M A) (f : A -> M B) :
  triple I m I -> (forall a, triple I (f a) I) -> triple I (m ≫= f) I.
Proof. intros Hm Hf. apply (triple_bind I I I); auto. Qed.

Lemma keeps_bind (R : relation world) `{!Transitive R}
  (m : M A) (f : A -> M B) :
  keeps R m -> (forall a, keeps R (f a)) -> keeps R (m ≫= f).
Proof.
  intros Hm Hf w. rewrite exec_bind. specialize (Hm w).
  destruct (snd (m w)); [|exact Hm].
  transitivity (exec m w); [exact Hm | apply Hf].
Qed.

End Triples.

Lemma triple_ret {A} (P : world -> Prop) (a : A) : triple P (mret a) P.
Proof. intros w H. exact H. Qed.

Lemma triple_throw {A} (P : world -> Prop) : triple P (@throw A) P.
Proof. intros w H. exact H. Qed.

Lemma triple_listener (P Q : world -> Prop) (m : M unit) :
  triple P m Q -> triple P (listener m) Q.
Proof. intros H w HP. exact (H w HP). Qed.

Lemma keeps_ret (R : relation world) `{!Reflexive R} {A} (a : A) :
  keeps R (mret a).
Proof. intros w. unfold exec. simpl. reflexivity. Qed.

Lemma keeps_throw (R : relation world) `{!Reflexive R} {A} :
  keeps R (@throw A).
Proof. intros w. unfold exec. simpl. reflexivity. Qed.

Lemma keeps_listener (R : relation world) (m : M unit) :
  keeps R m -> keeps R (listener m).
Proof. intros H w. exact (H w). Qed.

Lemma keeps_triple (R : relation world) (I : world -> Prop) {A} (m : M A) :
  (forall w w', I w -> R w w' -> I w') -> keeps R m -> triple I m I.
Proof. intros HI Hm w Hw. exact (HI _ _ Hw (Hm w)). Qed.

(** *** Frames *)

#[export] Instance popover_frame_refl : Reflexive popover_frame.
Proof. intros w. repeat split. lia. Qed.

#[export] Instance popover_frame_trans : Transitive popover_frame.
Proof.
  intros a b c (H1 & H2 & H3) (H4 & H5 & H6).
  repeat split; try congruence. lia.
Qed.

#[export] Instance session_frame_refl : Reflexive session_frame.
Proof. intros w. split; [reflexivity|]. split; [reflexivity|]. left. reflexivity. Qed.

#[export] Instance session_frame_trans : Transitive session_frame.
Proof.
  intros a b c (H1 & H2 & H3) (H4 & H5 & H6).
  split; [etransitivity; eassumption|]. split; [congruence|].
  unfold focus_frame in *.
  destruct H3 as [H3|[[x H3] H3']], H6 as [H6|[[y H6] H6']].
  - left. congruence.
  - right. split; [exists y; congruence | exact H6'].
  - right. split; [exists x; exact H3 | congruence].
  - congruence.
Qed.

Lemma session_popover_frame {A} (m : M A) :
  keeps session_frame m -> keeps popover_frame m.
Proof. intros H w. exact (proj1 (H w)). Qed.

Create HintDb keeps discriminated.

Ltac frame_leaf :=
  intros w; destruct_world w;
  unfold session_frame, popover_frame, popover_ids; run_m;
  repeat split; try reflexivity; try lia; try (left; reflexivity).

Section Leaves.

Lemma keeps_get_this : keeps session_frame get_this.
Proof. frame_leaf. Qed.
Lemma keeps_get_page : keeps session_frame get_page.
Proof. frame_leaf. Qed.
Lemma keeps_get_cell c : keeps session_frame (get_cell c).
Proof. frame_leaf. Qed.
Lemma keeps_get_row r : keeps session_frame (get_row r).
Proof. frame_leaf. Qed.
Lemma keeps_get_button b : keeps session_frame (get_button b).
Proof. frame_leaf. Qed.
Lemma keeps_update_cell c f : keeps session_frame (update_cell c f).
Proof. frame_leaf. Qed.
Lemma keeps_update_row r f : keeps session_frame (update_row r f).
Proof. frame_leaf. Qed.
Lemma keeps_update_button b f : keeps session_frame (update_button b f).
Proof. frame_leaf. Qed.
Lemma keeps_emit m : keeps session_frame (emit m).
Proof. frame_leaf. Qed.
Lemma keeps_setTimeout k : keeps session_frame (setTimeout k).
Proof. frame_leaf. Qed.
Lemma keeps_pending f :
  keeps session_frame (modify_this (with_pendingUpdates f)).
Proof. frame_leaf. Qed.
Lemma keeps_toasts f : keeps session_frame (modify_page (with_toasts f)).
Proof. frame_leaf. Qed.

Lemma keeps_unfocus_input c :
  keeps session_frame (modify_page (unfocus (FInput c))).
Proof.
  frame_leaf. unfold focus_frame. case_bool_decide as H; [|left; reflexivity].
  right. split; [exists c; exact H | reflexivity].
Qed.

Lemma keeps_showError message : keeps session_frame (showError message).
Proof. frame_leaf. Qed.

Lemma map_id_same (g : Popover -> Popover) (l : list Popover) :
  (forall x, p_id (g x) = p_id x) -> map p_id (map g l) = map p_id l.
Proof.
  intros Hg. rewrite map_map. apply map_ext. exact Hg.
Qed.

Lemma keeps_set_form p f : keeps session_frame (set_form p f).
Proof.
  frame_leaf. apply map_id_same.
  intros x. destruct (bool_decide (p_id x = p) && accepts (p_form x) f);
    reflexivity.
Qed.

Lemma keeps_set_onclick p k : keeps session_frame (set_onclick p k).
Proof.
  frame_leaf. apply map_id_same.
  intros x. destruct (bool_decide (p_id x = p)); reflexivity.
Qed.

(** These move the focus or the session, not the popovers. *)
Lemma keeps_focus a : keeps popover_frame (focus a).
Proof. frame_leaf. Qed.
Lemma keeps_activeEdit e :
  keeps popover_frame (modify_this (with_activeEdit e)).
Proof. frame_leaf. Qed.
Lemma keeps_activeElement a :
  keeps popover_frame (modify_page (with_activeElement a)).
Proof. frame_leaf. Qed.

End Leaves.

#[export] Hint Resolve keeps_get_this keeps_get_page keeps_get_cell
  keeps_get_row keeps_get_button keeps_update_cell keeps_update_row
  keeps_update_button keeps_emit keeps_setTimeout keeps_pending keeps_toasts
  keeps_unfocus_input keeps_showError keeps_set_form keeps_set_onclick
  keeps_focus keeps_activeEdit keeps_activeElement : keeps.

#[export] Hint Resolve session_popover_frame | 10 : keeps.

(** Walks through a method that is built from methods known to keep
    the frame. *)
Ltac keeps_tac :=
  repeat first
    [ progress cbv zeta
    | solve [auto 3 with keeps]
    | lazymatch goal with
      | |- keeps _ (mret _) => apply keeps_ret; typeclasses eauto
      | |- keeps _ throw => apply keeps_throw; typeclasses eauto
      | |- keeps _ (listener _) => apply keeps_listener
      | |- keeps _ (mbind _ _) =>
          apply keeps_bind; [typeclasses eauto | | intros ?]
      | |- keeps _ (match ?x with _ => _ end) => destruct x
      end ].

Section Quiet.

Lemma keeps_pending_set uuid p : keeps session_frame (pending_set uuid p).
Proof. unfold pending_set. keeps_tac. Qed.

Lemma keeps_set_innerHTML c h : keeps session_frame (set_innerHTML c h).
Proof. unfold set_innerHTML. keeps_tac. Qed.

Lemma keeps_showSuccess c : keeps session_frame (showSuccess c).
Proof. unfold showSuccess. keeps_tac. Qed.

Hint Resolve keeps_pending_set keeps_set_innerHTML keeps_showSuccess : keeps.

Lemma keeps_show_title c oh v ov : keeps session_frame (show_title c oh v ov).
Proof. unfold show_title. keeps_tac. Qed.

Lemma keeps_set_part c cls h : keeps session_frame (set_part c cls h).
Proof. unfold set_part. keeps_tac. Qed.

Lemma keeps_toggleOperation uuid op btn r :
  keeps session_frame (toggleOperation uuid op btn r).
Proof. unfold toggleOperation. keeps_tac. Qed.

Hint Resolve keeps_show_title keeps_set_part keeps_toggleOperation : keeps.

Lemma keeps_on_toggle_click btn : keeps session_frame (on_toggle_click btn).
Proof. unfold on_toggle_click. keeps_tac. Qed.

Lemma keeps_run_callback k : keeps session_frame (run_callback k).
Proof. destruct k; unfold run_callback; keeps_tac. Qed.

Lemma keeps_on_timeout i : keeps session_frame (on_timeout i).
Proof.
  intros w. unfold on_timeout, exec.
  destruct (timers w !! i) as [k|]; [|reflexivity].
  match goal with
  | |- session_frame _ (fst (run_callback k ?w1)) =>
      transitivity w1; [|apply (keeps_run_callback k w1)]
  end.
  destruct_world w. repeat split; try reflexivity; try lia. left. reflexivity.
Qed.

Lemma keeps_on_update_result s uuid error :
  keeps session_frame (on_update_result s uuid error).
Proof. unfold on_update_result. keeps_tac. Qed.

Lemma keeps_on_operation_result s error :
  keeps session_frame (on_operation_result s error).
Proof. unfold on_operation_result. keeps_tac. Qed.

(** The title editor and its save leave the popovers alone. *)
Lemma keeps_editTitle c uuid r : keeps popover_frame (editTitle c uuid r).
Proof. unfold editTitle. keeps_tac. Qed.

Lemma keeps_saveTitle value : keeps popover_frame (saveTitle value).
Proof. unfold saveTitle. keeps_tac. Qed.

Hint Resolve keeps_saveTitle : keeps.

Lemma keeps_saveHandler v : keeps popover_frame (saveHandler v).
Proof. unfold saveHandler. keeps_tac. Qed.

Hint Resolve keeps_saveHandler : keeps.

Lemma keeps_on_input_keydown c key :
  keeps popover_frame (on_input_keydown c key).
Proof. unfold on_input_keydown. keeps_tac. Qed.

End Quiet.

#[export] Hint Resolve keeps_pending_set keeps_set_innerHTML keeps_showSuccess
  keeps_show_title keeps_set_part keeps_toggleOperation keeps_on_toggle_click
  keeps_run_callback keeps_on_timeout keeps_on_update_result
  keeps_on_operation_result keeps_editTitle keeps_saveTitle keeps_saveHandler
  keeps_on_input_keydown : keeps.

(** ** One popover *)

Lemma one_popover_frame (w w' : world) :
  one_popover w -> popover_frame w w' -> one_popover w'.
Proof.
  intros [H1 H2] (F1 & F2 & F3). split; [congruence|].
  rewrite F1. eapply Forall_impl; [exact H2|]. intros p Hp. simpl in *. lia.
Qed.

Lemma calm_one_popover {A} (m : M A) :
  keeps popover_frame m -> triple one_popover m one_popover.
Proof. apply keeps_triple. exact one_popover_frame. Qed.

(** Removing the active popover leaves none. *)
Lemma remove_active (l : list Popover) (a : option nat) :
  map p_id l = option_list a ->
  match a with
  | Some p => filter (fun x => p_id x ≠ p) l = []
  | None => l = []
  end.
Proof.
  destruct a as [p|]; simpl; intros H.
  - destruct l as [|x [|y r]]; try discriminate H. injection H as H.
    rewrite filter_cons_False; [reflexivity|]. intros Hne. exact (Hne H).
  - destruct l; [reflexivity | discriminate H].
Qed.

Ltac popover_start w H :=
  intros w H; destruct_world w;
  unfold one_popover, popover_ids in *; revert H; run_m;
  intros [Hids Hlt]; pose proof (remove_active _ _ Hids) as Hrm.

Lemma closePopover_one : triple one_popover closePopover one_popover.
Proof.
  popover_start w H. crunch; cbn [option_list] in *; rewrite ?Hrm; subst;
    split; auto.
Qed.

Lemma cancelEdit_one : triple one_popover cancelEdit one_popover.
Proof.
  popover_start w H. crunch; cbn [option_list] in *; rewrite ?Hrm; subst;
    split; auto.
Qed.

Ltac editor_one Hrm :=
  crunch; cbn [option_list] in *; rewrite ?Hrm; subst;
  cbn [app map p_id]; try (split; [assumption | assumption]);
  rewrite ?bool_decide_eq_true_2 by reflexivity; cbn [p_id];
  (split; [reflexivity | repeat constructor]).

Lemma editWatchWords_one c uuid r :
  triple one_popover (editWatchWords c uuid r) one_popover.
Proof. popover_start w H. editor_one Hrm. Qed.

Lemma editInterval_one c uuid r :
  triple one_popover (editInterval c uuid r) one_popover.
Proof. popover_start w H. editor_one Hrm. Qed.

Lemma editTags_one c uuid r :
  triple one_popover (editTags c uuid r) one_popover.
Proof. popover_start w H. editor_one Hrm. Qed.

Create HintDb one_popover discriminated.

#[export] Hint Resolve closePopover_one cancelEdit_one editWatchWords_one
  editInterval_one editTags_one : one_popover.

#[export] Hint Extern 5 (triple one_popover _ one_popover) =>
  apply calm_one_popover; solve [auto 3 with keeps] : one_popover.

(** Walks through a method built from methods that keep an invariant. *)
Ltac triple_tac leaf :=
  repeat first
    [ progress cbv zeta
    | solve [leaf]
    | lazymatch goal with
      | |- triple _ (mret _) _ => apply triple_ret
      | |- triple _ throw _ => apply triple_throw
      | |- triple _ (listener _) _ => apply triple_listener
      | |- triple _ (mbind _ _) _ => apply triple_inv_bind; [|intros ?]
      | |- triple _ (match ?x with _ => _ end) _ => destruct x
      end ].

Section OnePopover.

Lemma saveWatchWords_one uuid b t r c :
  triple one_popover (saveWatchWords uuid b t r c) one_popover.
Proof. unfold saveWatchWords. triple_tac ltac:(auto 3 with one_popover). Qed.

Lemma saveInterval_one uuid value r c :
  triple one_popover (saveInterval uuid value r c) one_popover.
Proof. unfold saveInterval. triple_tac ltac:(auto 3 with one_popover). Qed.

Lemma saveTags_one uuid tags r c :
  triple one_popover (saveTags uuid tags r c) one_popover.
Proof. unfold saveTags. triple_tac ltac:(auto 3 with one_popover). Qed.

Hint Resolve saveWatchWords_one saveInterval_one saveTags_one : one_popover.

Lemma startEdit_one c : triple one_popover (startEdit c) one_popover.
Proof. unfold startEdit. triple_tac ltac:(auto 3 with one_popover). Qed.

Hint Resolve startEdit_one : one_popover.

(** Every event keeps the invariant. *)
Lemma handle_one (e : event) : triple one_popover (handle e) one_popover.
Proof.
  destruct e as [c|btn|p|p| |tgt key|c v|c to|p f|s uuid error|s error|i];
    try destruct tgt;
    unfold handle, on_table_click, on_table_keydown, on_document_keydown,
      on_document_click_at, on_document_click, on_popover_keydown,
      on_save_click, on_cancel_click, save_words_click, save_interval_click,
      save_tags_click;
    triple_tac ltac:(auto 3 with one_popover).
Qed.

End OnePopover.

Lemma reachable_one_popover (w : world) : reachable w -> one_popover w.
Proof.
  induction 1 as [s tags d Hd|w e _ IH].
  - unfold one_popover, popover_ids, new. simpl. rewrite Hd. split; constructor.
  - apply (handle_one e w IH).
Qed.

Lemma createPopover_replaces (w : world) (c : nat) (content : form) :
  one_popover w ->
  let w' := exec (createPopover c content) w in
  popovers (page w')
    = [{| p_id := next_id (page w); p_form := content; p_onclick := None |}] /\
  (next_id (page w) ∉ popover_ids w) /\
  activePopover (this w') = None.
Proof.
  revert w. popover_start w H.
  assert (Hfresh : next_id0 ∉ map p_id popovers0).
  { intros Hin. rewrite Forall_forall in Hlt. specialize (Hlt _ Hin). lia. }
  crunch; cbn [option_list] in *; rewrite ?Hrm; subst; auto.
Qed.

(** With a session open, activating a cell does nothing. *)
Lemma activation_suppressed (w : world) (c : nat) :
  is_Some (activeEdit (this w)) ->
  step w (click_cell c) = w /\
  forall key, is_activation_key key = true ->
    step w (keydown (in_cell c) key) = w.
Proof.
  intros [s Hs]. revert Hs. destruct_world w. run_m. intros ->. run_m.
  split; [reflexivity|]. intros key Hk.
  assert (Hesc : bool_decide (key = lit "Escape") = false).
  { apply bool_decide_eq_false_2. intros ->. discriminate Hk. }
  rewrite Hesc. reflexivity.
Qed.

(** C7: in every world that the controller reaches there is at most one
    popover in the document, the active one; [createPopover] removes it
    before it adds the new one; and with a session open (there is one
    [activeEdit] at most) the activation of a cell, by click or by
    Enter or Space, does nothing. *)
Theorem at_most_one_popover (w : world) :
  reachable w ->
  (length (popovers (page w)) <= 1)%nat /\
  popover_ids w = option_list (activePopover (this w)) /\
  (forall c content,
     let w' := exec (createPopover c content) w in
     popovers (page w')
       = [{| p_id := next_id (page w); p_form := content;
             p_onclick := None |}] /\
     (next_id (page w) ∉ popover_ids w)) /\
  (forall c,
     is_Some (activeEdit (this w)) ->
     step w (click_cell c) = w /\
     forall key, is_activation_key key = true ->
       step w (keydown (in_cell c) key) = w).
Proof.
  intros Hr. pose proof (reachable_one_popover w Hr) as Hone.
  split; [|split; [exact (proj1 Hone)|split]].
  - destruct Hone as [Hids _]. unfold popover_ids in Hids.
    apply (f_equal length) in Hids. rewrite length_map in Hids.
    rewrite Hids. destruct (activePopover (this w)); simpl; lia.
  - intros c content.
    destruct (createPopover_replaces w c content Hone) as (H1 & H2 & _).
    split; assumption.
  - intros c. apply activation_suppressed.
Qed.

(** ** The end of a session *)

Lemma open_or_closed_frame (s : Edit.t) (w w' : world) :
  open_or_closed s w -> session_frame w w' -> open_or_closed s w'.
Proof.
  intros [H|(H1 & H2 & H3)] ((_ & F2 & _) & F4 & F5).
  - left. congruence.
  - right. split; [congruence|]. split; [congruence|].
    rewrite H3 in F5. destruct F5 as [F5|[[c F5] _]]; [exact F5 | discriminate F5].
Qed.

Lemma quiet_open_or_closed (s : Edit.t) {A} (m : M A) :
  keeps session_frame m -> triple (open_or_closed s) m (open_or_closed s).
Proof. apply keeps_triple. apply open_or_closed_frame. Qed.

Lemma closePopover_session (s : Edit.t) :
  triple (open_or_closed s) closePopover (open_or_closed s).
Proof.
  intros w H. destruct_world w. unfold open_or_closed in *. revert H. run_m.
  intros [->|(-> & -> & ->)]; crunch; right; auto.
Qed.

Lemma cancelEdit_session (s : Edit.t) :
  triple (open_or_closed s) cancelEdit (open_or_closed s).
Proof.
  intros w H. destruct_world w. unfold open_or_closed in *. revert H. run_m.
  intros [->|(-> & -> & ->)]; crunch; right; auto.
Qed.

Create HintDb session discriminated.

#[export] Hint Resolve closePopover_session cancelEdit_session : session.

#[export] Hint Extern 5 (triple (open_or_closed _) _ (open_or_closed _)) =>
  apply quiet_open_or_closed; solve [auto 3 with keeps] : session.

Section SessionEnd.

Variable s : Edit.t.













End SessionEnd.


(** ** Numbers as strings *)

Section Decimal.

Import Decimal.

Lemma uint_value_of_lu (d : uint) (acc : Z) :
  uint_value d acc
  = (Z.of_N (Unsigned.of_lu (rev d)) + acc * 10 ^ Z.of_N (Unsigned.usize d))%Z.
Proof.
  revert acc. induction d; intros acc; simpl uint_value;
    [simpl; lia | ..];
    rewrite IHd; unfold rev; simpl revapp;
    rewrite (Unsigned.of_lu_revapp d (_ Nil)); fold (rev d);
    simpl Unsigned.of_lu; simpl Unsigned.usize;
    rewrite N2Z.inj_add, N2Z.inj_mul, N2Z.inj_pow, N2Z.inj_succ,
      Z.pow_succ_r by lia; simpl Z.of_N; ring.
Qed.

Lemma uint_value_of_uint (d : uint) : uint_value d 0 = Z.of_uint d.
Proof.
  rewrite uint_value_of_lu. unfold Z.of_uint.
  rewrite Unsigned.of_uint_alt. lia.
Qed.

Lemma lit_String (a : ascii) (s : string) :
  lit (String a s) = N_of_ascii a :: lit s.
Proof. reflexivity. Qed.

Lemma parse_digits_cons (radix : Z) (c : N) (s : jsstring) (acc : option Z) :
  parse_digits radix (c :: s) acc
  = match digit_of radix c with
    | Some d => parse_digits radix s (Some (radix * default 0 acc + d))%Z
    | None => acc
    end.
Proof. reflexivity. Qed.

Ltac digit_step :=
  rewrite parse_digits_cons;
  match goal with
  | |- context [digit_of 10 (N_of_ascii ?a)] =>
      let v := eval vm_compute in (digit_of 10 (N_of_ascii a)) in
      change (digit_of 10 (N_of_ascii a)) with v
  end; cbv iota.

Lemma parse_digits_uint (d : uint) (acc : option Z) :
  d <> Nil ->
  parse_digits 10 (lit (NilEmpty.string_of_uint d)) acc
  = Some (uint_value d (default 0%Z acc)).
Proof.
  revert acc. induction d; intros acc H; [congruence | ..];
    cbn [NilEmpty.string_of_uint]; rewrite lit_String; digit_step;
    (destruct d; [reflexivity | rewrite IHd by discriminate; reflexivity ..]).
Qed.

(** [parseInt] reads a numeral, with a minus sign or none, as its
    value. *)
Lemma parseInt_uint (d : uint) :
  d <> Nil ->
  parseInt (lit (NilEmpty.string_of_uint d)) = Int (Z.of_uint d) /\
  parseInt (45 :: lit (NilEmpty.string_of_uint d)) = Int (- Z.of_uint d).
Proof.
  intros H. rewrite <- uint_value_of_uint.
  pose proof (parse_digits_uint d None H) as Hp.
  assert (Hgo : forall (neg : bool) (s : jsstring),
             s = lit (NilEmpty.string_of_uint d) ->
             (let '(radix, s3) :=
                match s with
                | 48 :: 120 :: r => (16%Z, r)
                | 48 :: 88 :: r => (16%Z, r)
                | _ => (10%Z, s)
                end in
              match parse_digits radix s3 None with
              | None => NaN
              | Some n => Int (if neg then - n else n)%Z
              end) = Int (if neg then - uint_value d 0 else uint_value d 0)%Z).
  { intros neg s ->.
    destruct d as [|d|d|d|d|d|d|d|d|d|d]; [congruence | ..];
      cbn [NilEmpty.string_of_uint] in *; rewrite lit_String in *;
      try (change (N_of_ascii _) with 48 in * );
      try (cbv beta iota zeta delta [N_of_ascii N_of_digits N.add N.mul Pos.add Pos.mul Pos.succ]; rewrite Hp; reflexivity). 
    all: destruct d as [|d|d|d|d|d|d|d|d|d|d];
      cbn [NilEmpty.string_of_uint] in *; rewrite ?lit_String in *;
      cbv beta iota zeta delta [N_of_ascii N_of_digits N.add N.mul Pos.add Pos.mul Pos.succ] in *; try rewrite Hp; try reflexivity. }
  split; [|exact (Hgo true _ eq_refl)].
  destruct d as [|d|d|d|d|d|d|d|d|d|d]; [congruence | ..];
    exact (Hgo false _ eq_refl).
Qed.

End Decimal.

(** [parseInt(String(n))] is [n], for every integer. *)
Lemma parseInt_num_to_string (z : Z) :
  parseInt (num_to_string (Int z)) = Int z.
Proof.
  unfold num_to_string. rewrite <- (DecimalZ.of_to z) at 2.
  destruct z as [|p|p]; [reflexivity | |]; cbn [Z.to_int Z.of_int];
    pose proof (Unsigned.to_uint_nonnil p) as Hn;
    destruct (parseInt_uint _ Hn) as [Hpos Hneg];
    unfold NilZero.string_of_int, NilZero.string_of_uint.
  - destruct (Pos.to_uint p); [congruence | exact Hpos ..].
  - rewrite lit_String.
    destruct (Pos.to_uint p); [congruence | exact Hneg ..].
Qed.

(** ** What is saved is what is shown again *)

(** What the save routines write, whether or not they go on to redraw. *)
Lemma saveWatchWords_writes (w : world) uuid b t r c :
  let w' := exec (saveWatchWords uuid b t r c) w in
  pendingUpdates (this w') = <[uuid := pending_cell c]> (pendingUpdates (this w)) /\
  rows (page w')
  = alter (row_data (insert "triggerWords"%string (join [10] t))) r
      (alter (row_data (insert "blockWords"%string (join [10] b))) r
         (rows (page w))).
Proof. destruct_world w. crunch; split; reflexivity. Qed.

Lemma saveTags_writes (w : world) uuid tags r c :
  let w' := exec (saveTags uuid tags r c) w in
  pendingUpdates (this w') = <[uuid := pending_cell c]> (pendingUpdates (this w)) /\
  rows (page w')
  = alter (row_data (insert "tags"%string (join [44] tags))) r (rows (page w)).
Proof. destruct_world w. crunch; split; reflexivity. Qed.

Lemma saveInterval_writes (w : world) uuid value r c :
  let w' := exec (saveInterval uuid value r c) w in
  pendingUpdates (this w') = <[uuid := pending_cell c]> (pendingUpdates (this w)) /\
  rows (page w')
  = if bool_decide (value = lit "default") then
      alter (row_data (insert "intervalUseDefault"%string (lit "true"))) r
        (rows (page w))
    else
      alter (row_data (insert "intervalMinutes"%string
               (num_to_string (remainder (parseInt value) 60)))) r
        (alter (row_data (insert "intervalHours"%string
                  (num_to_string (floor_div (parseInt value) 60)))) r
           (alter (row_data (insert "intervalUseDefault"%string (lit "false")))
              r (rows (page w)))).
Proof. destruct_world w. crunch; split; reflexivity. Qed.

(** The popover that an editor opens, after the ones it left. *)
Lemma editWatchWords_opens (w : world) c uuid r rw :
  rows (page w) !! r = Some rw ->
  let w' := exec (editWatchWords c uuid r) w in
  last (popovers (page w'))
  = Some {| p_id := next_id (page w);
            p_form := WordsForm (or_else (r_data rw !! "blockWords"%string) [])
                        (or_else (r_data rw !! "triggerWords"%string) []);
            p_onclick := Some {| k_uuid := uuid; k_row := r; k_cell := c |} |}.
Proof.
  destruct_world w. run_m. intros ->.
  crunch; rewrite map_app; cbn [map]; rewrite last_snoc; cbn [p_id];
    rewrite bool_decide_eq_true_2 by reflexivity; reflexivity.
Qed.

Lemma editInterval_opens (w : world) c uuid r rw :
  rows (page w) !! r = Some rw ->
  let w' := exec (editInterval c uuid r) w in
  let useDefault :=
    bool_decide (r_data rw !! "intervalUseDefault"%string = Some (lit "true")) in
  let currentMinutes :=
    (num_or (parseInt_attr (r_data rw !! "intervalHours"%string)) 0 * 60
     + num_or (parseInt_attr (r_data rw !! "intervalMinutes"%string)) 0)%Z in
  last (popovers (page w'))
  = Some {| p_id := next_id (page w);
            p_form := IntervalForm (selected_interval useDefault currentMinutes)
                        (num_to_string (Int (num_or (Int currentMinutes) 60)));
            p_onclick := Some {| k_uuid := uuid; k_row := r; k_cell := c |} |}.
Proof.
  destruct_world w. run_m. intros ->.
  crunch; rewrite map_app; cbn [map]; rewrite last_snoc; cbn [p_id];
    rewrite bool_decide_eq_true_2 by reflexivity; reflexivity.
Qed.

Lemma editTags_opens (w : world) c uuid r rw :
  rows (page w) !! r = Some rw ->
  let w' := exec (editTags c uuid r) w in
  let currentTags :=
    List.filter truthy (split 44 (or_else (r_data rw !! "tags"%string) [])) in
  last (popovers (page w'))
  = Some {| p_id := next_id (page w);
            p_form := TagsForm
              (map (fun tag =>
                      (Tag.uuid tag, bool_decide (Tag.uuid tag ∈ currentTags)))
                   (allTags (this w)));
            p_onclick := Some {| k_uuid := uuid; k_row := r; k_cell := c |} |}.
Proof.
  destruct_world w. run_m. intros ->.
  crunch; rewrite map_app; cbn [map]; rewrite last_snoc; cbn [p_id];
    rewrite bool_decide_eq_true_2 by reflexivity; reflexivity.
Qed.

Lemma saveTags_keeps_catalog (w : world) uuid tags r c :
  allTags (this (exec (saveTags uuid tags r c) w)) = allTags (this w).
Proof. destruct_world w. crunch; reflexivity. Qed.

Section SplitJoin.

Implicit Types (s x : jsstring) (l : list jsstring).

Lemma split_whole sep x : ~ In sep x -> split sep x = [x].
Proof.
  induction x as [|a x IH]; simpl; [reflexivity|]. intros H.
  destruct (N.eqb_spec a sep) as [->|Hne]; [tauto|].
  rewrite IH by tauto. reflexivity.
Qed.

Lemma split_app_sep sep x rest :
  ~ In sep x -> split sep (x ++ sep :: rest) = x :: split sep rest.
Proof.
  induction x as [|a x IH]; simpl; intros H.
  - rewrite N.eqb_refl. reflexivity.
  - destruct (N.eqb_spec a sep) as [->|Hne]; [tauto|].
    rewrite IH by tauto. reflexivity.
Qed.

(** Splitting what was joined gives the pieces back, when there is a
    piece and none holds the separator. *)
Lemma split_join sep l :
  l <> [] -> Forall (fun x => ~ In sep x) l -> split sep (join [sep] l) = l.
Proof.
  induction l as [|x [|y r] IH]; intros Hne Hl; [congruence | |].
  - simpl. apply split_whole. inversion Hl; assumption.
  - inversion Hl as [|? ? Hx Hr]; subst.
    change (join [sep] (x :: y :: r)) with (x ++ sep :: join [sep] (y :: r)).
    rewrite split_app_sep by exact Hx. rewrite IH; [reflexivity | discriminate | exact Hr].
Qed.

Lemma trimStart_incl s c : In c (trimStart s) -> In c s.
Proof.
  induction s as [|a r IH]; simpl; [tauto|].
  destruct (is_space a); [intros H; right; exact (IH H) | tauto].
Qed.

Lemma trim_incl s c : In c (trim s) -> In c s.
Proof.
  unfold trim, trimEnd. intros H. apply in_rev in H.
  apply trimStart_incl in H. apply in_rev in H. apply trimStart_incl. exact H.
Qed.

Lemma trimStart_id s :
  (forall c, head s = Some c -> is_space c = false) -> trimStart s = s.
Proof.
  destruct s as [|a r]; [reflexivity|]. simpl. intros H.
  rewrite (H a eq_refl). reflexivity.
Qed.

Lemma trim_id s : trimmed s -> trim s = s.
Proof.
  intros (_ & Hh & Hl). unfold trim, trimEnd.
  rewrite (trimStart_id s Hh), trimStart_id, rev_involutive; [reflexivity|].
  intros c Hc. apply Hl. rewrite <- Hc. symmetry. apply head_rev_last.
Qed.

(** The words that were sent are read back from the text that the row
    keeps of them. *)
Lemma words_of_join (ws : list jsstring) :
  Forall trimmed ws -> Forall (fun x => ~ In 10 x) ws ->
  words_of (join [10] ws) = ws.
Proof.
  intros Ht Hn. unfold words_of. destruct ws as [|x r]; [reflexivity|].
  rewrite split_join by (discriminate || exact Hn).
  induction Ht as [|y l Hy _ IH]; [reflexivity|].
  inversion Hn; subst. simpl. rewrite (trim_id y Hy).
  destruct Hy as [Hy _]. destruct y; [congruence|]. simpl.
  f_equal. apply IH. assumption.
Qed.

Lemma trimmed_lines_no_newline s :
  Forall (fun x => ~ In 10 x) (trimmed_lines s).
Proof.
  unfold trimmed_lines. apply List.Forall_forall. intros x Hx.
  apply in_map_iff in Hx. destruct Hx as (l & <- & Hl).
  apply filter_In in Hl. destruct Hl as [Hl _].
  pose proof (split_no_sep 10 s) as Hs. rewrite List.Forall_forall in Hs.
  intros H. apply (Hs l Hl). apply trim_incl. exact H.
Qed.

Lemma words_of_idempotent s : words_of (join [10] (words_of s)) = words_of s.
Proof.
  rewrite (words_of_trimmed_lines s).
  apply words_of_join;
    [apply trimmed_lines_trimmed | apply trimmed_lines_no_newline].
Qed.

Lemma tags_of_join (ids : list jsstring) :
  Forall (fun x => x <> [] /\ ~ In 44 x) ids ->
  List.filter truthy (split 44 (join [44] ids)) = ids.
Proof.
  intros H. destruct ids as [|x r]; [reflexivity|].
  rewrite split_join;
    [|discriminate | eapply Forall_impl; [exact H | intros ? [_ ?]; assumption]].
  induction H as [|y l [Hy _] _ IH]; [reflexivity|].
  simpl. destruct y; [congruence|]. simpl. f_equal. exact IH.
Qed.

Lemma or_else_nil s : or_else (Some s) [] = s.
Proof. destruct s; reflexivity. Qed.

End SplitJoin.

(** X1: the watch words that a save sent are the ones that the popover,
    opened again on the row, would send: its textareas hold the words
    line by line. *)
Theorem words_survive_reopening
  (w : world) (uuid uuid' : option jsstring) (r c c' : nat) (rw : Row)
  (block_words trigger_words : jsstring) :
  rows (page w) !! r = Some rw ->
  let k := {| k_uuid := uuid; k_row := r; k_cell := c |} in
  let w1 := exec (save_words_click k block_words trigger_words) w in
  let w2 := exec (editWatchWords c' uuid' r) w1 in
  exists p b t,
    last (popovers (page w2)) = Some p /\
    p_form p = WordsForm b t /\
    b = join [10] (words_of block_words) /\
    t = join [10] (words_of trigger_words) /\
    words_of b = words_of block_words /\
    words_of t = words_of trigger_words.
Proof.
  intros Hrow k w1 w2. subst k w1 w2. unfold save_words_click.
  cbn [k_uuid k_row k_cell].
  destruct (saveWatchWords_writes w uuid (words_of block_words)
              (words_of trigger_words) r c) as [_ Hrows].
  eexists _, _, _. split.
  - apply editWatchWords_opens. rewrite Hrows, !lookup_alter_eq, Hrow.
    reflexivity.
  - cbn [p_form row_data r_data]. split; [reflexivity|].
    rewrite lookup_insert_ne, !lookup_insert_eq, !or_else_nil by discriminate.
    repeat split; apply words_of_idempotent.
Qed.

(** The tags that a save sent are the boxes that the popover, opened
    again on the row, has checked, when no identifier is empty or holds
    a comma. *)
Lemma tags_survive_reopening
  (w : world) (uuid uuid' : option jsstring) (r c c' : nat) (rw : Row)
  (tags : list jsstring) :
  rows (page w) !! r = Some rw ->
  Forall (fun x => x <> [] /\ ~ In 44 x) tags ->
  let w1 := exec (saveTags uuid tags r c) w in
  let w2 := exec (editTags c' uuid' r) w1 in
  exists p,
    last (popovers (page w2)) = Some p /\
    p_form p
    = TagsForm (map (fun tag => (Tag.uuid tag, bool_decide (Tag.uuid tag ∈ tags)))
                  (allTags (this w))).
Proof.
  intros Hrow Hids w1 w2. subst w1 w2.
  destruct (saveTags_writes w uuid tags r c) as [_ Hrows].
  eexists. split.
  - apply editTags_opens. rewrite Hrows, !lookup_alter_eq, Hrow. reflexivity.
  - cbn [p_form row_data r_data].
    rewrite saveTags_keeps_catalog, lookup_insert_eq, or_else_nil,
      tags_of_join by exact Hids.
    reflexivity.
Qed.

Lemma num_to_string_not_default (z : Z) : num_to_string (Int z) <> lit "default".
Proof.
  intros H. pose proof (parseInt_num_to_string z) as Hp. rewrite H in Hp.
  discriminate Hp.
Qed.

Lemma num_to_string_not_custom (z : Z) : num_to_string (Int z) <> lit "custom".
Proof.
  intros H. pose proof (parseInt_num_to_string z) as Hp. rewrite H in Hp.
  discriminate Hp.
Qed.

(** X2: a positive number of minutes that was saved is the one that the
    popover, opened again on the row, shows: as the preset of that
    value, or as the custom value.  The number is a safe integer: up to
    [MAX_SAFE_INTEGER] the code reads it, divides it and puts it
    together again without rounding. *)
Theorem interval_survives_reopening
  (w : world) (uuid uuid' : option jsstring) (r c c' : nat) (rw : Row)
  (n : Z) :
  rows (page w) !! r = Some rw ->
  (0 < n <= MAX_SAFE_INTEGER)%Z ->
  let value := num_to_string (Int n) in
  let w1 := exec (saveInterval uuid value r c) w in
  let w2 := exec (editInterval c' uuid' r) w1 in
  (socket (this w) = true ->
   sent w1
   = sent w ++
     [watch_update uuid
        (Interval false (Some
           {| weeks := Int 0; days := Int 0; hours := Int (n / 60);
              minutes := Int (n mod 60); seconds := Int 0 |}))]) /\
  exists p,
    last (popovers (page w2)) = Some p /\
    p_form p
    = IntervalForm (if bool_decide (n ∈ presets) then value else lit "custom")
        value.
Proof.
  intros Hrow [Hn _] value w1 w2. subst w1 w2. split.
  { intros Hs. rewrite saveInterval_sent by exact Hs. unfold interval_updates.
    rewrite bool_decide_eq_false_2 by apply num_to_string_not_default.
    subst value. rewrite parseInt_num_to_string. cbn [floor_div remainder].
    rewrite Z.rem_mod_nonneg by lia. reflexivity. }
  destruct (saveInterval_writes w uuid value r c) as [_ Hrows].
  rewrite bool_decide_eq_false_2 in Hrows by apply num_to_string_not_default.
  eexists. split.
  - apply editInterval_opens. rewrite Hrows, !lookup_alter_eq, Hrow. reflexivity.
  - cbn [p_form row_data r_data]. subst value.
    rewrite lookup_insert_ne, lookup_insert_ne, lookup_insert_eq by discriminate.
    rewrite lookup_insert_ne, lookup_insert_eq by discriminate.
    rewrite lookup_insert_eq.
    rewrite parseInt_num_to_string. cbn [floor_div remainder parseInt_attr].
    rewrite !parseInt_num_to_string.
    assert (Hcur : (num_or (Int (n / 60)) 0 * 60 + num_or (Int (Z.rem n 60)) 0 = n)%Z).
    { unfold num_or.
      rewrite Z.rem_mod_nonneg by lia.
      pose proof (Z.div_mod n 60 ltac:(lia)) as Hdm.
      destruct (Z.eqb_spec (n / 60) 0) as [E1|E1];
        destruct (Z.eqb_spec (n mod 60) 0) as [E2|E2]; lia. }
    rewrite Hcur. unfold selected_interval, num_or.
    rewrite (bool_decide_eq_false_2 (Some (lit "false") = Some (lit "true")))
      by discriminate.
    destruct (Z.eqb_spec n 0); [lia|].
    destruct (Z.ltb_spec 0 n); [|lia].
    case_bool_decide; reflexivity.
Qed.

(** X3: two saves for one watch leave one pending entry, that of the later
    save; of two failed acknowledgements the first shows a toast and
    removes the entry, the second does nothing. *)
Theorem later_save_replaces_pending
  (w : world) (uuid : option jsstring) (b t tags : list jsstring)
  (r c1 c2 : nat) (e1 e2 : option jsstring) :
  let w1 := exec (saveWatchWords uuid b t r c1) w in
  let w2 := exec (saveTags uuid tags r c2) w1 in
  let w3 := exec (on_update_result false uuid e1) w2 in
  let w4 := exec (on_update_result false uuid e2) w3 in
  pendingUpdates (this w2)
    = <[uuid := pending_cell c2]> (pendingUpdates (this w)) /\
  length (toasts (page w3)) = S (length (toasts (page w2))) /\
  pendingUpdates (this w3) = delete uuid (pendingUpdates (this w)) /\
  w4 = w3.
Proof.
  intros w1 w2 w3 w4.
  assert (H2 : pendingUpdates (this w2)
               = <[uuid := pending_cell c2]> (pendingUpdates (this w))).
  { subst w1 w2.
    rewrite (proj1 (saveTags_writes _ uuid tags r c2)),
      (proj1 (saveWatchWords_writes w uuid b t r c1)).
    apply insert_insert_eq. }
  split; [exact H2|]. subst w3 w4. clearbody w2. clear w1.
  destruct_world w2. cbn [this pendingUpdates] in H2. subst.
  run_m. rewrite lookup_insert_eq. run_m. rewrite lookup_delete_eq. run_m.
  rewrite length_app, delete_insert_eq. cbn [length].
  repeat split. lia.
Qed.


(** ** Cancelling *)

(** What [cancelEdit] leaves of a world with a session open. *)
Lemma cancelEdit_effect (w : world) (e : Edit.t) :
  activeEdit (this w) = Some e ->
  let w' := exec cancelEdit w in
  returns cancelEdit w /\
  activeEdit (this w') = None /\
  activePopover (this w') = None /\
  activeElement (page w') = Some (FCell (Edit.cell e)) /\
  popovers (page w')
  = match activePopover (this w) with
    | Some p => filter (fun x => p_id x ≠ p) (popovers (page w))
    | None => popovers (page w)
    end /\
  cells (page w')
  = match Edit.originalHTML e with
    | Some h =>
        if html_truthy h then
          alter (cell_classes (class_remove "editing")) (Edit.cell e)
            (alter (cell_html h) (Edit.cell e) (cells (page w)))
        else cells (page w)
    | None => cells (page w)
    end /\
  rows (page w') = rows (page w) /\
  buttons (page w') = buttons (page w) /\
  toasts (page w') = toasts (page w) /\
  pendingUpdates (this w') = pendingUpdates (this w) /\
  sent w' = sent w /\
  timers w' = timers w.
Proof.
  destruct_world w. run_m. intros ->.
  crunch; repeat split; eexists; reflexivity.
Qed.

Lemma class_remove_add (c : string) (cls : list string) :
  c ∉ cls -> class_remove c (class_add c cls) = cls.
Proof.
  intros H. unfold class_add, has_class, class_remove.
  rewrite bool_decide_eq_false_2 by exact H.
  rewrite filter_app. cbn. rewrite decide_False by (intros E; apply E; reflexivity).
  cbn. rewrite app_nil_r.
  induction cls as [|a r IH]; [reflexivity|].
  rewrite filter_cons_True.
  - f_equal. apply IH. intros Hin. apply H. right. exact Hin.
  - intros ->. apply H. left.
Qed.

Lemma editTitle_cells (w : world) (c r : nat) (uuid : option jsstring) :
  returns (editTitle c uuid r) w ->
  let w' := exec (editTitle c uuid r) w in
  exists v,
    cells (page w')
    = alter (cell_input v) c
        (alter (cell_html []) c
           (alter (cell_classes (class_add "editing")) c (cells (page w)))) /\
    rows (page w') = rows (page w) /\
    popovers (page w') = popovers (page w) /\
    activePopover (this w') = activePopover (this w) /\
    buttons (page w') = buttons (page w) /\
    toasts (page w') = toasts (page w).
Proof.
  unfold exec, returns.
  destruct (editTitle c uuid r w) as [w' o] eqn:E. cbn [fst snd].
  intros [[] ->]. revert E. destruct_world w.
  crunch; intros [= <-]; eexists; repeat split.
Qed.

(** X5: Escape during a title edit puts the cell back as it was, whatever
    was typed: the same markup and classes, nothing sent, nothing
    pending, the focus on the cell. *)
Theorem title_edit_cancelled_restores_cell
  (w : world) (c r : nat) (uuid : option jsstring) (x : Cell)
  (typed : jsstring) :
  cells (page w) !! c = Some x ->
  c_input x = None ->
  c_html x <> [] ->
  "editing"%string ∉ c_classes x ->
  returns (editTitle c uuid r) w ->
  let w1 := exec (editTitle c uuid r) w in
  let w2 := exec (update_cell c (cell_input typed)) w1 in
  let w3 := exec cancelEdit w2 in
  cells (page w3) = cells (page w) /\
  rows (page w3) = rows (page w) /\
  sent w3 = sent w /\
  pendingUpdates (this w3) = pendingUpdates (this w) /\
  timers w3 = timers w /\
  activeEdit (this w3) = None /\
  activeElement (page w3) = Some (FCell c).
Proof.
  intros Hx Hin Hh Hcls Hr w1 w2 w3.
  destruct (editTitle_session w c r uuid x Hx Hr)
    as (v & He & _ & Hs & Ht & Hp).
  destruct (editTitle_cells w c r uuid Hr) as (v' & Hc & Hrows & _).
  fold w1 in He, Hs, Ht, Hp, Hc, Hrows.
  assert (He2 : activeEdit (this w2) = activeEdit (this w1)) by reflexivity.
  rewrite He in He2.
  destruct (cancelEdit_effect w2 _ He2)
    as (_ & Ha & _ & Hf & _ & Hc3 & Hr3 & _ & _ & Hp3 & Hs3 & Ht3).
  fold w3 in Ha, Hf, Hc3, Hr3, Hp3, Hs3, Ht3.
  cbn [Edit.originalHTML Edit.cell] in Hc3, Hf.
  assert (Hinner : innerHTML x = c_html x).
  { unfold innerHTML. rewrite Hin. apply app_nil_r. }
  rewrite Hinner in Hc3.
  destruct (c_html x) as [|k ks] eqn:Ehtml; [congruence|]. cbn [html_truthy] in Hc3.
  assert (H2 : rows (page w2) = rows (page w1) /\ sent w2 = sent w1 /\
               timers w2 = timers w1 /\
               pendingUpdates (this w2) = pendingUpdates (this w1))
    by (repeat split).
  destruct H2 as (Hr2 & Hs2 & Ht2 & Hp2).
  repeat split; try congruence.
  rewrite Hc3. change (cells (page w2)) with (alter (cell_input typed) c (cells (page w1))).
  rewrite Hc, !alter_alter_eq. apply alter_id. intros y Hy.
  rewrite Hx in Hy. injection Hy as <-. destruct x as [xr xf xc xh xi].
  cbn [c_row c_field c_classes c_html c_input] in *. subst.
  unfold compose, cell_classes, cell_html, cell_input.
  cbn [c_row c_field c_classes c_html c_input].
  rewrite class_remove_add by exact Hcls. reflexivity.
Qed.

(** What an editor leaves of a world with no popover open. *)
Lemma editor_effect (f : popover_field) (w : world) c uuid r rw :
  rows (page w) !! r = Some rw ->
  activePopover (this w) = None ->
  popovers (page w) = [] ->
  let w' := exec (editor f c uuid r) w in
  returns (editor f c uuid r) w /\
  (exists e, activeEdit (this w') = Some e /\ Edit.cell e = c /\
             Edit.originalHTML e = None) /\
  activePopover (this w') = Some (next_id (page w)) /\
  (exists x, popovers (page w') = [x] /\ p_id x = next_id (page w)) /\
  cells (page w') = cells (page w) /\
  rows (page w') = rows (page w) /\
  pendingUpdates (this w') = pendingUpdates (this w) /\
  sent w' = sent w /\
  timers w' = timers w.
Proof.
  destruct_world w. run_m. intros Hr -> ->.
  destruct f; unfold editor; run_m; rewrite Hr; crunch;
    cbn [app map p_id]; rewrite bool_decide_eq_true_2 by reflexivity;
    (repeat split; try (eexists; reflexivity));
    try (eexists; split; [reflexivity | split; reflexivity]);
    (eexists; split; reflexivity).
Qed.

(** X6: opening a popover and cancelling it, whatever was filled in, leaves
    the cells and the rows as they were, sends nothing and tracks
    nothing; the popover is gone and the focus is on the cell. *)
Theorem popover_cancelled_changes_nothing
  (f : popover_field) (w : world) (c r : nat) (uuid : option jsstring)
  (rw : Row) (filled : form) :
  rows (page w) !! r = Some rw ->
  activePopover (this w) = None ->
  popovers (page w) = [] ->
  let w1 := exec (editor f c uuid r) w in
  let w2 := exec (set_form (next_id (page w)) filled) w1 in
  let w3 := exec cancelEdit w2 in
  popovers (page w1) <> [] /\
  popovers (page w3) = [] /\
  cells (page w3) = cells (page w) /\
  rows (page w3) = rows (page w) /\
  sent w3 = sent w /\
  pendingUpdates (this w3) = pendingUpdates (this w) /\
  timers w3 = timers w /\
  activeEdit (this w3) = None /\
  activePopover (this w3) = None /\
  activeElement (page w3) = Some (FCell c).
Proof.
  intros Hr Hp Hps w1 w2 w3.
  destruct (editor_effect f w c uuid r rw Hr Hp Hps)
    as (_ & (e & He & Hcell & Hoh) & Hap & (x & Hx & Hid) & Hc & Hrows & Hpu
        & Hs & Ht).
  fold w1 in He, Hap, Hx, Hc, Hrows, Hpu, Hs, Ht.
  assert (H2 : activeEdit (this w2) = activeEdit (this w1) /\
               activePopover (this w2) = activePopover (this w1) /\
               cells (page w2) = cells (page w1) /\
               rows (page w2) = rows (page w1) /\
               sent w2 = sent w1 /\ timers w2 = timers w1 /\
               pendingUpdates (this w2) = pendingUpdates (this w1))
    by (repeat split).
  destruct H2 as (He2 & Hap2 & Hc2 & Hr2 & Hs2 & Ht2 & Hp2).
  assert (Hx2 : exists y, popovers (page w2) = [y] /\ p_id y = next_id (page w)).
  { change (popovers (page w2))
      with (map (fun x =>
                   if bool_decide (p_id x = next_id (page w))
                      && accepts (p_form x) filled
                   then {| p_id := p_id x; p_form := filled;
                           p_onclick := p_onclick x |}
                   else x) (popovers (page w1))).
    rewrite Hx. cbn [map].
    destruct (bool_decide (p_id x = next_id (page w)) && accepts (p_form x) filled);
      eexists; split; try reflexivity; exact Hid. }
  destruct Hx2 as (y & Hy & Hidy).
  rewrite He in He2.
  destruct (cancelEdit_effect w2 e He2)
    as (_ & Ha3 & Hap3 & Hf3 & Hps3 & Hc3 & Hr3 & _ & _ & Hp3 & Hs3 & Ht3).
  fold w3 in Ha3, Hap3, Hf3, Hps3, Hc3, Hr3, Hp3, Hs3, Ht3.
  rewrite Hoh in Hc3. rewrite Hap2, Hap, Hy in Hps3.
  rewrite filter_cons_False, filter_nil in Hps3
    by (intros Hne; exact (Hne Hidy)).
  rewrite Hx. split; [discriminate|].
  repeat split; congruence.
Qed.

Lemma document_keydown_closed (w : world) (key : jsstring) :
  activeEdit (this w) = None ->
  exec (listener (on_document_keydown key)) w = w.
Proof.
  intros H. unfold listener, on_document_keydown, exec.
  cbv beta iota zeta delta [mbind M_bind get_this fst snd].
  rewrite H. reflexivity.
Qed.

Lemma document_keydown_escape (w : world) (e : Edit.t) :
  activeEdit (this w) = Some e ->
  exec (listener (on_document_keydown (lit "Escape"))) w = exec cancelEdit w.
Proof.
  intros H. unfold listener, on_document_keydown, exec.
  cbv beta iota zeta delta [mbind M_bind get_this fst snd].
  rewrite H. reflexivity.
Qed.

Lemma table_keydown_open (w : world) (c : nat) (key : jsstring) (e : Edit.t) :
  activeEdit (this w) = Some e ->
  (listener (on_table_keydown c key)) w = (w, Some tt).
Proof.
  intros H. unfold listener, on_table_keydown.
  cbv beta iota zeta delta [mbind M_bind get_this fst snd].
  rewrite H. reflexivity.
Qed.

Lemma exec_bind_pure {A B} (m : M A) (f : A -> M B) (w : world) (a : A) :
  m w = (w, Some a) -> exec (m ≫= f) w = exec (f a) w.
Proof. intros H. unfold exec, mbind, M_bind. rewrite H. reflexivity. Qed.

(** X7: Escape cancels the session from wherever the key is pressed: in a
    cell, in the text input, in the popover (whose own listener and the
    document's both run) or elsewhere; nothing is sent and nothing
    tracked.  This is for a session whose end takes the focus from no
    text input ([input_goes_first]): a title cell that was empty keeps
    its input, which [cell.focus()] would blur, and the blur saves. *)
Theorem escape_cancels_from_anywhere
  (w : world) (tgt : target) (e : Edit.t) :
  activeEdit (this w) = Some e ->
  input_goes_first e w ->
  target_present tgt w ->
  let w' := step w (keydown tgt (lit "Escape")) in
  w' = exec cancelEdit w /\
  activeEdit (this w') = None /\
  activePopover (this w') = None /\
  activeElement (page w') = Some (FCell (Edit.cell e)) /\
  sent w' = sent w /\
  pendingUpdates (this w') = pendingUpdates (this w).
Proof.
  intros He _ Ht w'.
  assert (Hstep : w' = exec cancelEdit w).
  { subst w'. unfold step. destruct tgt as [c|c|p|]; cbn [handle].
    - rewrite (exec_bind_pure _ _ w tt) by apply (table_keydown_open w c _ e He).
      apply (document_keydown_escape w e He).
    - destruct Ht as [v Hv].
      rewrite (exec_bind_pure _ _ w (page w)) by reflexivity. rewrite Hv.
      rewrite (exec_bind_pure _ _ w tt).
      2:{ unfold listener, on_input_keydown, get_cell.
          cbv beta iota zeta delta [mbind M_bind fst snd].
          destruct (cells (page w) !! c) as [x|]; [|reflexivity].
          destruct (c_input x); reflexivity. }
      rewrite (exec_bind_pure _ _ w (page w)) by reflexivity. rewrite Hv.
      rewrite (exec_bind_pure _ _ w tt) by apply (table_keydown_open w c _ e He).
      apply (document_keydown_escape w e He).
    - destruct Ht as [x Hx].
      rewrite (exec_bind_pure _ _ w (page w)) by reflexivity. rewrite Hx.
      rewrite exec_bind. cbn [listener snd].
      change (exec (listener (on_popover_keydown (lit "Escape"))) w)
        with (exec cancelEdit w).
      apply document_keydown_closed.
      apply (cancelEdit_effect w e He).
    - apply (document_keydown_escape w e He). }
  destruct (cancelEdit_effect w e He)
    as (_ & Ha & Hap & Hf & _ & _ & _ & _ & _ & Hp & Hs & _).
  rewrite <- Hstep in Ha, Hap, Hf, Hp, Hs. repeat split; assumption.
Qed.

(** What a click on a toggle button leaves alone. *)
Lemma toggle_click_frame (w : world) (btn : nat) :
  let w' := exec (on_toggle_click btn) w in
  this w' = this w /\
  cells (page w') = cells (page w) /\
  popovers (page w') = popovers (page w) /\
  toasts (page w') = toasts (page w) /\
  activeElement (page w') = activeElement (page w) /\
  timers w' = timers w.
Proof. destruct_world w. crunch; repeat split. Qed.

(** X8: a click on a toggle button while a popover is open also cancels the
    edit: the click reaches the document outside of the popover and of
    the editable cells. *)
Theorem toggle_click_closes_popover
  (w : world) (btn p : nat) (e : Edit.t) :
  activePopover (this w) = Some p ->
  activeEdit (this w) = Some e ->
  Edit.originalHTML e = None ->
  let w' := step w (click_toggle btn) in
  activeEdit (this w') = None /\
  activePopover (this w') = None /\
  popovers (page w') = filter (fun x => p_id x ≠ p) (popovers (page w)) /\
  cells (page w') = cells (page w) /\
  pendingUpdates (this w') = pendingUpdates (this w) /\
  activeElement (page w') = Some (FCell (Edit.cell e)).
Proof.
  intros Hp He Hoh w'.
  set (w1 := exec (on_toggle_click btn) w).
  destruct (toggle_click_frame w btn) as (Hthis & Hc & Hps & _ & _ & _).
  fold w1 in Hthis, Hc, Hps.
  assert (Hstep : w' = exec cancelEdit w1).
  { subst w'. unfold step, handle.
    rewrite exec_bind. cbn [listener snd].
    change (exec (listener (on_toggle_click btn)) w) with w1.
    unfold on_document_click_at, on_document_click, listener, exec.
    cbv beta iota zeta delta [mbind M_bind get_this fst snd].
    rewrite Hthis, Hp. reflexivity. }
  assert (He1 : activeEdit (this w1) = Some e) by (rewrite Hthis; exact He).
  destruct (cancelEdit_effect w1 e He1)
    as (_ & Ha & Hap & Hf & Hps' & Hc' & _ & _ & _ & Hpu & _).
  rewrite <- Hstep in Ha, Hap, Hf, Hps', Hc', Hpu.
  rewrite Hoh in Hc'. rewrite Hthis, Hp in Hps'. rewrite Hthis in Hpu.
  repeat split; congruence.
Qed.

(** X9: a cell whose field is none of the four is not edited: a click on
    it, and Enter or Space in it, change nothing. *)
Theorem unknown_field_ignored (w : world) (c : nat) (x : Cell) :
  cells (page w) !! c = Some x ->
  c_field x <> Some (lit "title") ->
  c_field x <> Some (lit "watch_words") ->
  c_field x <> Some (lit "time_between_check") ->
  c_field x <> Some (lit "tags") ->
  step w (click_cell c) = w /\
  forall key, is_activation_key key = true ->
              step w (keydown (in_cell c) key) = w.
Proof.
  intros Hx H1 H2 H3 H4.
  assert (Hstart : exec (startEdit c) w = w).
  { destruct_world w. revert Hx. run_m. intros ->. run_m.
    destruct (rows0 !! c_row x); run_m; [|reflexivity].
    rewrite !bool_decide_eq_false_2 by assumption. reflexivity. }
  split.
  - unfold step, handle, listener, on_table_click, exec in *.
    cbv beta iota zeta delta [mbind M_bind get_this fst snd].
    destruct (activeEdit (this w)); [reflexivity | exact Hstart].
  - intros key Hkey. unfold step, handle. rewrite exec_bind. cbn [listener snd].
    assert (Hk : exec (listener (on_table_keydown c key)) w = w).
    { unfold listener, on_table_keydown, exec in *.
      cbv beta iota zeta delta [mbind M_bind get_this fst snd].
      destruct (activeEdit (this w)); [reflexivity|].
      rewrite Hkey. exact Hstart. }
    rewrite Hk.
    assert (Hesc : bool_decide (key = lit "Escape") = false).
    { unfold is_activation_key in Hkey. apply orb_prop in Hkey.
      destruct Hkey as [Hkey|Hkey]; apply bool_decide_eq_true_1 in Hkey;
        subst key; reflexivity. }
    unfold listener, on_document_keydown, exec.
    cbv beta iota zeta delta [mbind M_bind get_this fst snd].
    rewrite Hesc. destruct (activeEdit (this w)); reflexivity.
Qed.

(** X10: two clicks on a toggle button send the same operation twice, and
    leave the button with the action it had and the row with the class
    cleared (pause, mute) or set (unpause, unmute). *)
Theorem toggle_twice
  (w : world) (btn : nat) (b : Button) (rw : Row) (o : toggle_op) :
  socket (this w) = true ->
  buttons (page w) !! btn = Some b ->
  rows (page w) !! b_row b = Some rw ->
  b_op b = Some (op_name o) ->
  let w2 := exec (on_toggle_click btn) (exec (on_toggle_click btn) w) in
  let m := watch_operation (Some (op_normalized o))
             (r_data rw !! "watchUuid"%string) in
  sent w2 = sent w ++ [m; m] /\
  (exists b2, buttons (page w2) !! btn = Some b2 /\
              b_op b2 = Some (op_name o)) /\
  (exists rw2, rows (page w2) !! b_row b = Some rw2 /\
               r_data rw2 = r_data rw /\
               if op_sets_class o then op_class o ∉ r_classes rw2
               else op_class o ∈ r_classes rw2).
Proof.
  intros Hs Hb Hr Ho w2 m. subst w2 m. revert Hs Hb Hr.
  destruct_world w. run_m. intros -> Hb Hr.
  rewrite Hb. run_m. rewrite Hr. run_m. rewrite Ho.
  destruct o; cbn [op_name op_normalized op_class op_sets_class];
    decide_lits; run_m;
    rewrite ?lookup_alter_eq, Hb; cbn [fmap option_fmap option_map button_face b_row b_op];
    run_m; rewrite ?lookup_alter_eq, Hr;
    cbn [fmap option_fmap option_map row_status row_classes r_data];
    run_m; decide_lits; run_m;
    rewrite <- app_assoc; (split; [reflexivity|]);
    (split; [eexists; split; [rewrite !lookup_alter_eq, Hb; reflexivity
                             | reflexivity]|]);
    eexists; (split; [rewrite !lookup_alter_eq, Hr; reflexivity|]);
    cbn [row_status row_classes r_classes r_data]; (split; [reflexivity|]);
    auto using class_add_in, class_remove_not_in.
Qed.

(** ** The title, once changed *)

(** A timer that was set last, firing. *)
Lemma last_timer_fires (w : world) (l : list callback) (k : callback) :
  timers w = l ++ [k] ->
  step w (timeout (length l))
  = exec (run_callback k)
      {| this := this w; page := page w; sent := sent w; timers := l |}.
Proof.
  intros H. unfold step, handle, listener, on_timeout, exec. cbn [fst].
  rewrite H, list_lookup_middle by reflexivity.
  rewrite delete_middle, app_nil_r. reflexivity.
Qed.



(** X12: without a socket, a title cell whose markup has no [.title-text]
    makes [saveTitle] throw after it tracked the update: the session
    stays open, and no cell can be activated any more. *)
Theorem title_save_throws_without_title_text
  (w : world) (e : Edit.t) (x : Cell) (h : list node) (value : jsstring) :
  activeEdit (this w) = Some e ->
  Edit.originalHTML e = Some h ->
  Some value <> Edit.originalValue e ->
  socket (this w) = false ->
  cells (page w) !! Edit.cell e = Some x ->
  querySelector "title-text" h = None ->
  let w1 := exec (saveTitle value) w in
  ~ returns (saveTitle value) w /\
  activeEdit (this w1) = Some e /\
  is_Some (pendingUpdates (this w1) !! Edit.uuid e) /\
  sent w1 = sent w /\
  c_html <$> cells (page w1) !! Edit.cell e = Some h /\
  forall c, step w1 (click_cell c) = w1.
Proof.
  intros He Hh Hv Hs Hx Hq w1.
  pose proof (patch_not_found "title-text"
                (fun _ => text_nodes (if truthy value then value
                                      else default [] (Edit.originalValue e)))
                h Hq) as Hp.
  assert (Hrun : saveTitle value w
                 = ({| this := with_pendingUpdates
                                 (insert (Edit.uuid e)
                                    {| Pending.cell := Edit.cell e;
                                       Pending.originalHTML := Edit.originalHTML e;
                                       Pending.originalValue := Edit.originalValue e |})
                                 (this w);
                       page := with_activeElement
                                 (if bool_decide (activeElement (page w)
                                                  = Some (FInput (Edit.cell e)))
                                  then None else activeElement (page w))
                                 (with_cells
                                    (fun m => alter (cell_html h) (Edit.cell e)
                                       (alter (cell_html saving_indicator)
                                          (Edit.cell e) m))
                                    (page w));
                       sent := sent w; timers := timers w |}, None)).
  { revert He Hs Hx. destruct_world w. run_m. intros -> -> Hx. run_m.
    rewrite bool_decide_eq_false_2 by exact Hv. run_m. rewrite Hh. dom_simpl.
    rewrite !lookup_alter_eq, Hx. dom_simpl. rewrite Hp. run_m.
    repeat f_equal. repeat case_bool_decide; congruence. }
  subst w1. unfold exec, returns. rewrite Hrun. cbn [fst snd].
  split; [intros [? [=]]|]. split; [exact He|].
  split; [cbn; rewrite lookup_insert_eq; eexists; reflexivity|].
  split; [reflexivity|].
  split; [cbn; rewrite !lookup_alter_eq, Hx; reflexivity|].
  intros c. unfold step, handle, listener, on_table_click.
  cbv beta iota zeta delta [mbind M_bind get_this fst snd exec].
  cbn [this with_pendingUpdates activeEdit]. rewrite He. reflexivity.
Qed.

(** ** Cells that lack what the controller looks for *)

(** X13: a title cell that has no [.title-text], in a row without a cached
    title, cannot be edited: [editTitle] throws before it touches the
    cell, and the click leaves everything as it was. *)
Theorem title_without_text_is_not_edited
  (w : world) (c : nat) (x : Cell) (rw : Row) :
  cells (page w) !! c = Some x ->
  c_field x = Some (lit "title") ->
  rows (page w) !! c_row x = Some rw ->
  or_else (r_data rw !! "watchTitle"%string) [] = [] ->
  querySelector "title-text" (innerHTML x) = None ->
  ~ returns (startEdit c) w /\
  step w (click_cell c) = w /\
  forall key, is_activation_key key = true ->
              step w (keydown (in_cell c) key) = w.
Proof.
  intros Hx Hf Hr Ht Hq.
  assert (Hstart : startEdit c w = (w, None)).
  { revert Hx Hr. destruct_world w. run_m. intros Hx Hr. rewrite Hx. run_m.
    rewrite Hr. run_m. rewrite Hf.
    rewrite bool_decide_eq_true_2 by reflexivity. run_m.
    rewrite Hx. run_m. rewrite Hr. run_m. rewrite Hq.
    destruct (r_data rw !! "watchTitle"%string) as [[|a v]|];
      [reflexivity | discriminate Ht | reflexivity]. }
  split; [unfold returns; rewrite Hstart; intros [? [=]]|].
  split.
  - unfold step, handle, listener, on_table_click, exec.
    cbv beta iota zeta delta [mbind M_bind get_this fst snd].
    destruct (activeEdit (this w)); [reflexivity|]. rewrite Hstart. reflexivity.
  - intros key Hkey. unfold step, handle. rewrite exec_bind. cbn [listener snd].
    assert (Hk : exec (listener (on_table_keydown c key)) w = w).
    { unfold listener, on_table_keydown, exec.
      cbv beta iota zeta delta [mbind M_bind get_this fst snd].
      destruct (activeEdit (this w)); [reflexivity|].
      rewrite Hkey, Hstart. reflexivity. }
    rewrite Hk.
    assert (Hesc : bool_decide (key = lit "Escape") = false).
    { unfold is_activation_key in Hkey. apply orb_prop in Hkey.
      destruct Hkey as [Hkey|Hkey]; apply bool_decide_eq_true_1 in Hkey;
        subst key; reflexivity. }
    unfold listener, on_document_keydown, exec.
    cbv beta iota zeta delta [mbind M_bind get_this fst snd].
    rewrite Hesc. destruct (activeEdit (this w)); reflexivity.
Qed.

(** What a save routine leaves when the cell has no element to redraw:
    it throws there. *)
Lemma set_part_throws (w : world) (c : nat) (cls : string) (h : list node)
  (x : Cell) :
  cells (page w) !! c = Some x ->
  querySelector cls (c_html x) = None ->
  set_part c cls h w = (w, None).
Proof.
  intros Hx Hq. unfold set_part, get_cell.
  cbv beta iota zeta delta [mbind M_bind fst snd].
  rewrite Hx, (patch_not_found cls _ _ Hq). reflexivity.
Qed.


(** ** Flashes and toasts *)

(** X15: a successful acknowledgement flashes the cell of the pending update
    and forgets the update; when the timer of the flash fires, the cell
    is as it was. *)
Theorem success_flash_comes_and_goes
  (w : world) (uuid error : option jsstring) (p : Pending.t) (x : Cell) :
  pendingUpdates (this w) !! uuid = Some p ->
  cells (page w) !! Pending.cell p = Some x ->
  "save-success"%string ∉ c_classes x ->
  let w1 := exec (on_update_result true uuid error) w in
  let w2 := step w1 (timeout (length (timers w))) in
  pendingUpdates (this w1) = delete uuid (pendingUpdates (this w)) /\
  (exists x1, cells (page w1) !! Pending.cell p = Some x1 /\
              "save-success"%string ∈ c_classes x1 /\
              c_html x1 = c_html x) /\
  toasts (page w1) = toasts (page w) /\
  sent w1 = sent w /\
  cells (page w2) = cells (page w) /\
  timers w2 = timers w.
Proof.
  intros Hp Hx Hcls w1 w2.
  assert (Hrun : w1 = {| this := with_pendingUpdates (delete uuid) (this w);
                         page := with_cells
                                   (alter (cell_classes (class_add "save-success"))
                                      (Pending.cell p)) (page w);
                         sent := sent w;
                         timers := timers w ++ [remove_success (Pending.cell p)] |}).
  { subst w1. revert Hp. destruct_world w. run_m. intros ->. reflexivity. }
  subst w2. rewrite (last_timer_fires w1 (timers w) (remove_success (Pending.cell p)))
    by (rewrite Hrun; reflexivity).
  rewrite Hrun. cbn [this page sent timers with_pendingUpdates with_cells
                       pendingUpdates cells toasts exec run_callback].
  split; [reflexivity|]. split.
  { eexists. rewrite lookup_alter_eq, Hx. split; [reflexivity|].
    split; [apply class_add_in | reflexivity]. }
  split; [reflexivity|]. split; [reflexivity|].
  run_m. split; [|reflexivity].
  rewrite alter_alter_eq. apply alter_id. intros y Hy. rewrite Hx in Hy.
  injection Hy as <-. destruct x as [xr xf xc xh xi].
  unfold compose, cell_classes. cbn [c_row c_field c_classes c_html c_input] in *.
  rewrite class_remove_add by exact Hcls. reflexivity.
Qed.

(** *** Toasts *)

#[export] Instance toast_frame_refl : Reflexive toast_frame.
Proof. intros w. split; [reflexivity | apply incl_refl]. Qed.

#[export] Instance toast_frame_trans : Transitive toast_frame.
Proof.
  intros a b c [H1 H2] [H3 H4]. split; [congruence|].
  eapply incl_tran; eassumption.
Qed.

Lemma toasts_timed_frame (w w' : world) :
  toasts_timed w -> toast_frame w w' -> toasts_timed w'.
Proof.
  intros H [Ht Hi] t m Hin. rewrite Ht in Hin. apply Hi. exact (H t m Hin).
Qed.

Ltac toast_leaf :=
  intros w; destruct_world w; unfold toast_frame; run_m;
  split; [reflexivity | try apply incl_refl; try (apply incl_appl, incl_refl)].

Section ToastLeaves.

Lemma toast_get_this : keeps toast_frame get_this.
Proof. toast_leaf. Qed.
Lemma toast_get_page : keeps toast_frame get_page.
Proof. toast_leaf. Qed.
Lemma toast_get_cell c : keeps toast_frame (get_cell c).
Proof. toast_leaf. Qed.
Lemma toast_get_row r : keeps toast_frame (get_row r).
Proof. toast_leaf. Qed.
Lemma toast_get_button b : keeps toast_frame (get_button b).
Proof. toast_leaf. Qed.
Lemma toast_update_cell c f : keeps toast_frame (update_cell c f).
Proof. toast_leaf. Qed.
Lemma toast_update_row r f : keeps toast_frame (update_row r f).
Proof. toast_leaf. Qed.
Lemma toast_update_button b f : keeps toast_frame (update_button b f).
Proof. toast_leaf. Qed.
Lemma toast_emit m : keeps toast_frame (emit m).
Proof. toast_leaf. Qed.
Lemma toast_setTimeout k : keeps toast_frame (setTimeout k).
Proof. toast_leaf. Qed.
Lemma toast_modify_this f : keeps toast_frame (modify_this f).
Proof. toast_leaf. Qed.
Lemma toast_popovers f : keeps toast_frame (modify_page (with_popovers f)).
Proof. toast_leaf. Qed.
Lemma toast_next_id n : keeps toast_frame (modify_page (with_next_id n)).
Proof. toast_leaf. Qed.
Lemma toast_activeElement a :
  keeps toast_frame (modify_page (with_activeElement a)).
Proof. toast_leaf. Qed.
Lemma toast_unfocus a : keeps toast_frame (modify_page (unfocus a)).
Proof. toast_leaf. Qed.
Lemma toast_focus a : keeps toast_frame (focus a).
Proof. toast_leaf. Qed.
Lemma toast_set_form p f : keeps toast_frame (set_form p f).
Proof. toast_leaf. Qed.
Lemma toast_set_onclick p k : keeps toast_frame (set_onclick p k).
Proof. toast_leaf. Qed.

End ToastLeaves.

Create HintDb toasts discriminated.

#[export] Hint Resolve toast_get_this toast_get_page toast_get_cell
  toast_get_row toast_get_button toast_update_cell toast_update_row
  toast_update_button toast_emit toast_setTimeout toast_modify_this
  toast_popovers toast_next_id toast_activeElement toast_unfocus toast_focus
  toast_set_form toast_set_onclick : toasts.

Ltac toast_tac :=
  repeat first
    [ progress cbv zeta
    | solve [auto 3 with toasts]
    | lazymatch goal with
      | |- keeps _ (mret _) => apply keeps_ret; typeclasses eauto
      | |- keeps _ throw => apply keeps_throw; typeclasses eauto
      | |- keeps _ (listener _) => apply keeps_listener
      | |- keeps _ (mbind _ _) =>
          apply keeps_bind; [typeclasses eauto | | intros ?]
      | |- keeps _ (match ?x with _ => _ end) => destruct x
      end ].

Section ToastFrames.

Lemma toast_pending_set uuid p : keeps toast_frame (pending_set uuid p).
Proof. unfold pending_set. toast_tac. Qed.
Lemma toast_set_innerHTML c h : keeps toast_frame (set_innerHTML c h).
Proof. unfold set_innerHTML. toast_tac. Qed.
Lemma toast_showSuccess c : keeps toast_frame (showSuccess c).
Proof. unfold showSuccess. toast_tac. Qed.
Lemma toast_remove_popover p : keeps toast_frame (remove_popover p).
Proof. unfold remove_popover. toast_tac. Qed.
Hint Resolve toast_pending_set toast_set_innerHTML toast_showSuccess
  toast_remove_popover : toasts.
Lemma toast_closePopover : keeps toast_frame closePopover.
Proof. unfold closePopover. toast_tac. Qed.
Hint Resolve toast_closePopover : toasts.
Lemma toast_cancelEdit : keeps toast_frame cancelEdit.
Proof. unfold cancelEdit. toast_tac. Qed.
Lemma toast_createPopover c f : keeps toast_frame (createPopover c f).
Proof. unfold createPopover. toast_tac. Qed.
Lemma toast_show_title c oh v ov : keeps toast_frame (show_title c oh v ov).
Proof. unfold show_title. toast_tac. Qed.
Lemma toast_set_part c cls h : keeps toast_frame (set_part c cls h).
Proof. unfold set_part. toast_tac. Qed.
Hint Resolve toast_cancelEdit toast_createPopover toast_show_title
  toast_set_part : toasts.
Lemma toast_editTitle c uuid r : keeps toast_frame (editTitle c uuid r).
Proof. unfold editTitle. toast_tac. Qed.
Lemma toast_saveTitle v : keeps toast_frame (saveTitle v).
Proof. unfold saveTitle. toast_tac. Qed.
Hint Resolve toast_editTitle toast_saveTitle : toasts.
Lemma toast_saveHandler v : keeps toast_frame (saveHandler v).
Proof. unfold saveHandler. toast_tac. Qed.
Lemma toast_editWatchWords c uuid r : keeps toast_frame (editWatchWords c uuid r).
Proof. unfold editWatchWords. toast_tac. Qed.
Lemma toast_editInterval c uuid r : keeps toast_frame (editInterval c uuid r).
Proof. unfold editInterval. toast_tac. Qed.
Lemma toast_editTags c uuid r : keeps toast_frame (editTags c uuid r).
Proof. unfold editTags. toast_tac. Qed.
Lemma toast_saveWatchWords uuid b t r c :
  keeps toast_frame (saveWatchWords uuid b t r c).
Proof. unfold saveWatchWords. toast_tac. Qed.
Lemma toast_saveInterval uuid v r c : keeps toast_frame (saveInterval uuid v r c).
Proof. unfold saveInterval. toast_tac. Qed.
Lemma toast_saveTags uuid tags r c : keeps toast_frame (saveTags uuid tags r c).
Proof. unfold saveTags. toast_tac. Qed.
Lemma toast_toggleOperation uuid op btn r :
  keeps toast_frame (toggleOperation uuid op btn r).
Proof. unfold toggleOperation. toast_tac. Qed.
Hint Resolve toast_saveHandler toast_editWatchWords toast_editInterval
  toast_editTags toast_saveWatchWords toast_saveInterval toast_saveTags
  toast_toggleOperation : toasts.
Lemma toast_startEdit c : keeps toast_frame (startEdit c).
Proof. unfold startEdit. toast_tac. Qed.
Hint Resolve toast_startEdit : toasts.

(** The events that show or remove no toast. *)
Lemma toast_handle_quiet (e : event) :
  match e with
  | update_result _ _ _ | operation_result _ _ | timeout _ => True
  | _ => keeps toast_frame (handle e)
  end.
Proof.
  destruct e as [c|btn|p|p| |tgt key|c v|c to|p f|s uuid error|s error|i];
    try exact I; try destruct tgt;
    unfold handle, on_table_click, on_table_keydown, on_document_keydown,
      on_document_click_at, on_document_click, on_popover_keydown,
      on_input_keydown, on_toggle_click,
      on_save_click, on_cancel_click, save_words_click, save_interval_click,
      save_tags_click;
    toast_tac.
Qed.

End ToastFrames.

Lemma showError_timed (message : jsstring) :
  triple toasts_timed (showError message) toasts_timed.
Proof.
  intros w H. destruct_world w. unfold toasts_timed in *. revert H. run_m.
  intros H t m Hin. apply in_app_iff in Hin. apply in_app_iff.
  destruct Hin as [Hin|[[= <- <-]|[]]]; [left; eauto | right; left; reflexivity].
Qed.

Lemma on_timeout_timed (i : nat) : triple toasts_timed (on_timeout i) toasts_timed.
Proof.
  intros w H. unfold on_timeout, exec.
  destruct (timers w !! i) as [k|] eqn:Ek; [|exact H].
  destruct_world w. unfold toasts_timed in *. cbn [this page sent timers toasts] in *.
  assert (Hin_del : forall k', In k' timers0 -> k' <> k -> In k' (delete i timers0)).
  { intros k' Hin Hne. apply list_elem_of_In in Hin.
    apply list_elem_of_lookup in Hin. destruct Hin as [j Hj].
    apply list_elem_of_In, list_elem_of_lookup.
    destruct (decide (j < i)%nat).
    - exists j. rewrite list_lookup_delete_lt by assumption. exact Hj.
    - assert (j <> i) by (intros ->; rewrite Hj in Ek; congruence).
      exists (pred j). rewrite list_lookup_delete_ge by lia.
      replace (S (pred j)) with j by lia. exact Hj. }
  destruct k as [c oh v ov|c|t0].
  - (* restore_title: the toasts stay, the other timers too *)
    pose proof (toast_show_title c oh v ov
                  {| this := {| socket := socket0; activeEdit := activeEdit0;
                                activePopover := activePopover0;
                                allTags := allTags0;
                                pendingUpdates := pendingUpdates0 |};
                     page := {| rows := rows0; cells := cells0;
                                buttons := buttons0; popovers := popovers0;
                                toasts := toasts0;
                                activeElement := activeElement0;
                                next_id := next_id0 |};
                     sent := sent0; timers := delete i timers0 |}) as [Ht Hi].
    unfold exec in Ht, Hi. cbn [run_callback]. intros t m Hin.
    rewrite Ht in Hin. apply Hi. cbn [timers].
    apply Hin_del; [exact (H t m Hin) | discriminate].
  - run_m. intros t m Hin. apply Hin_del; [exact (H t m Hin) | discriminate].
  - run_m. intros t m Hin. apply list_elem_of_In, list_elem_of_filter in Hin.
    destruct Hin as [Hne Hin]. cbn in Hne.
    apply Hin_del; [apply (H t m), list_elem_of_In; exact Hin | congruence].
Qed.

(** X16: every event keeps that: no toast is left in the document without
    the timer that will remove it. *)
Theorem toasts_keep_their_timers (w : world) (es : list event) :
  toasts (page w) = [] -> toasts_timed (run w es).
Proof.
  intros H0.
  assert (Hstep : forall e w, toasts_timed w -> toasts_timed (step w e)).
  { intros e w' Hw. pose proof (toast_handle_quiet e) as Hq.
    destruct e; try exact (toasts_timed_frame _ _ Hw (Hq w')).
    - (* update_result *)
      unfold step, handle. revert w' Hw.
      change (triple toasts_timed
                (t ← get_this;
                 if socket t
                 then listener (on_update_result success uuid error)
                 else mret ()) toasts_timed).
      apply triple_inv_bind; [intros ? ?; assumption | intros t].
      destruct (socket t); [|apply triple_ret]. apply triple_listener.
      unfold on_update_result. apply triple_inv_bind; [intros ? ?; assumption|].
      intros t'. destruct success; destruct (pendingUpdates t' !! uuid);
        try apply triple_ret;
        (apply triple_inv_bind;
         [|intros _; apply (keeps_triple toast_frame);
             [exact toasts_timed_frame | apply toast_modify_this]]).
      + apply (keeps_triple toast_frame);
          [exact toasts_timed_frame | apply toast_showSuccess].
      + apply showError_timed.
    - (* operation_result *)
      unfold step, handle. revert w' Hw.
      change (triple toasts_timed
                (t ← get_this;
                 if socket t
                 then listener (on_operation_result success error)
                 else mret ()) toasts_timed).
      apply triple_inv_bind; [intros ? ?; assumption | intros t].
      destruct (socket t); [|apply triple_ret]. apply triple_listener.
      unfold on_operation_result. destruct success;
        [apply triple_ret | apply showError_timed].
    - (* timeout *)
      exact (on_timeout_timed i w' Hw). }
  assert (Hrun : forall es w, toasts_timed w -> toasts_timed (run w es)).
  { intros l. induction l as [|e l IH]; intros w' Hw; [exact Hw|].
    apply IH, Hstep, Hw. }
  apply Hrun. intros t m Hin. rewrite H0 in Hin. destruct Hin.
Qed.

(** ** The catalog of tags *)

Section Matching.

Implicit Types (s p id : jsstring).

Lemma starts_with_app p s : starts_with p (p ++ s) = true.
Proof. induction p as [|a p IH]; simpl; [reflexivity|]. rewrite N.eqb_refl. exact IH. Qed.

Lemma starts_with_split p s :
  starts_with p s = true -> s = p ++ drop (length p) s.
Proof.
  revert s. induction p as [|a p IH]; intros [|b s]; simpl; try discriminate;
    [reflexivity.. |].
  intros H. apply andb_prop in H. destruct H as [Hab H].
  apply N.eqb_eq in Hab. subst b. f_equal. apply IH. exact H.
Qed.

Lemma take_while_split f s :
  exists post, s = take_while f s ++ post /\
               forall c, head post = Some c -> f c = false.
Proof.
  induction s as [|a r (post & Hs & Hp)]; simpl.
  - exists []. split; [reflexivity | discriminate].
  - destruct (f a) eqn:Ha.
    + exists post. split; [simpl; congruence | exact Hp].
    + exists (a :: r). split; [reflexivity|]. intros c [= <-]. exact Ha.
Qed.

Lemma take_while_all f s : forallb f (take_while f s) = true.
Proof.
  induction s as [|a r IH]; simpl; [reflexivity|].
  destruct (f a) eqn:Ha; simpl; [rewrite Ha; exact IH | reflexivity].
Qed.

(** X17: the expression matches at the first index where [tag=] is followed
    by a character of the class, the group is the longest run of such
    characters there, and there is no match where there is no such
    index. *)
Theorem match_tag_leftmost_longest s :
  match match_tag s with
  | Some id =>
      exists pre post,
        tag_at s pre id post /\
        (forall c, head post = Some c -> is_tag_char c = false) /\
        (forall pre' id' post',
           tag_at s pre' id' post' -> (length pre <= length pre')%nat)
  | None => forall pre id post, ~ tag_at s pre id post
  end.
Proof.
  induction s as [|a r IH]; [|].
  - simpl. intros pre id post (H & Hne & _).
    destruct pre; [|discriminate]. discriminate.
  - assert (Hlater :
      (forall c rest, a :: r = lit "tag=" ++ c :: rest -> is_tag_char c = false) ->
      match match_tag r with
      | Some id =>
          exists pre post,
            tag_at (a :: r) pre id post /\
            (forall c, head post = Some c -> is_tag_char c = false) /\
            (forall pre' id' post',
               tag_at (a :: r) pre' id' post' -> (length pre <= length pre')%nat)
      | None => forall pre id post, ~ tag_at (a :: r) pre id post
      end).
    { intros Hhere.
      assert (Hshift : forall pre id post,
                tag_at (a :: r) pre id post ->
                exists pre0, pre = a :: pre0 /\ tag_at r pre0 id post).
      { intros pre id post (H & Hne & Hall). destruct pre as [|b pre0].
        - exfalso. destruct id as [|c id0]; [congruence|].
          simpl in Hall. apply andb_prop in Hall. destruct Hall as [Hc _].
          rewrite (Hhere c (id0 ++ post)) in Hc; [discriminate|].
          rewrite H. reflexivity.
        - injection H as <- H. exists pre0. split; [reflexivity|].
          split; [exact H|]. split; assumption. }
      destruct (match_tag r) as [id|].
      - destruct IH as (pre & post & (H & Hne & Hall) & Hpost & Hleft).
        exists (a :: pre), post. split; [|split].
        + split; [simpl; rewrite H; reflexivity|]. split; assumption.
        + exact Hpost.
        + intros pre' id' post' H'. destruct (Hshift _ _ _ H') as (pre0 & -> & H0).
          simpl. apply le_n_S. exact (Hleft _ _ _ H0).
      - intros pre id post H'. destruct (Hshift _ _ _ H') as (pre0 & _ & H0).
        exact (IH _ _ _ H0). }
    change (match_tag (a :: r)) with
      (if starts_with (lit "tag=") (a :: r) then
         match take_while is_tag_char (drop 4 (a :: r)) with
         | [] => match_tag r
         | m => Some m
         end
       else match_tag r).
    destruct (starts_with (lit "tag=") (a :: r)) eqn:Hsw.
    + apply starts_with_split in Hsw. change (length (lit "tag=")) with 4%nat in Hsw.
      set (rest := drop 4 (a :: r)) in *.
      destruct (take_while is_tag_char rest) as [|c m] eqn:Htw.
      * apply Hlater. intros c rest' E. rewrite Hsw in E.
        apply app_inv_head in E. rewrite E in Htw. simpl in Htw.
        destruct (is_tag_char c); [discriminate | reflexivity].
      * destruct (take_while_split is_tag_char rest) as (post & Hs & Hp).
        exists [], post. split; [|split].
        -- split; [|split].
           ++ rewrite Hsw at 1. rewrite Hs at 1. rewrite Htw. reflexivity.
           ++ discriminate.
           ++ rewrite <- Htw. apply take_while_all.
        -- exact Hp.
        -- intros. simpl. lia.
    + apply Hlater. intros c rest E. rewrite E in Hsw.
      rewrite (starts_with_app (lit "tag=") (c :: rest)) in Hsw. discriminate.
Qed.

Lemma match_tag_class s id :
  match_tag s = Some id -> id <> [] /\ forallb is_tag_char id = true.
Proof.
  induction s as [|a r IH]; [discriminate|].
  change (match_tag (a :: r)) with
    (if starts_with (lit "tag=") (a :: r) then
       match take_while is_tag_char (drop 4 (a :: r)) with
       | [] => match_tag r
       | m => Some m
       end
     else match_tag r).
  destruct (starts_with (lit "tag=") (a :: r)); [|exact IH].
  destruct (take_while is_tag_char (drop 4 (a :: r))) as [|c m] eqn:E;
    [exact IH|].
  intros [= <-]. split; [discriminate|]. rewrite <- E. apply take_while_all.
Qed.

Lemma tag_chars_plain id :
  id <> [] -> forallb is_tag_char id = true -> plain_identifier id.
Proof.
  intros Hne Hall. split; [exact Hne|].
  rewrite forallb_forall in Hall.
  split; [|split]; [| |apply forallb_forall; exact Hall];
    intros Hin; apply Hall in Hin; discriminate Hin.
Qed.

Lemma tag_of_button_plain btn t :
  tag_of_button btn = Some t -> plain_identifier (Tag.uuid t).
Proof.
  destruct btn as [|tg cls attrs ks]; [discriminate|]. unfold tag_of_button.
  destruct (getAttribute "href" attrs) as [href|]; [|discriminate].
  destruct (truthy href && includes (lit "tag=") href); [|discriminate].
  destruct (match_tag href) as [m|] eqn:Hm; [|discriminate].
  intros [= <-]. cbn [Tag.uuid]. apply match_tag_class in Hm.
  destruct Hm. apply tag_chars_plain; assumption.
Qed.

Lemma collectAllTags_plain (body : list node) :
  Forall (fun t => plain_identifier (Tag.uuid t)) (collectAllTags body).
Proof.
  apply List.Forall_forall. intros t Ht. apply list_elem_of_In in Ht.
  unfold collectAllTags in Ht. apply list_elem_of_omap in Ht.
  destruct Ht as (btn & _ & Hb). exact (tag_of_button_plain btn t Hb).
Qed.

End Matching.

(** The test [href.includes('tag=')] rejects no reference that the
    expression matches. *)
Lemma match_tag_includes (s id : jsstring) :
  match_tag s = Some id -> includes (lit "tag=") s = true.
Proof.
  induction s as [|a r IH]; [discriminate|].
  change (match_tag (a :: r)) with
    (if starts_with (lit "tag=") (a :: r) then
       match take_while is_tag_char (drop 4 (a :: r)) with
       | [] => match_tag r
       | m => Some m
       end
     else match_tag r).
  change (includes (lit "tag=") (a :: r)) with
    (starts_with (lit "tag=") (a :: r) || includes (lit "tag=") r).
  destruct (starts_with (lit "tag=") (a :: r)); [reflexivity|].
  intros H. rewrite (IH H). apply orb_true_r.
Qed.


Lemma trim_idempotent (s : jsstring) : trim (trim s) = trim s.
Proof.
  destruct (trim s) as [|a r] eqn:E; [reflexivity|]. rewrite <- E.
  apply trim_id, trim_trimmed. rewrite E. discriminate.
Qed.

Lemma tag_of_button_match (btn : node) :
  tag_of_button btn
  = match btn with
    | Elem _ _ attrs _ =>
        href ← getAttribute "href" attrs;
        id ← match_tag href;
        Some {| Tag.uuid := id; Tag.title := trim (textContent btn) |}
    | Text _ => None
    end.
Proof.
  destruct btn as [|tg cls attrs ks]; [reflexivity|]. unfold tag_of_button.
  destruct (getAttribute "href" attrs) as [href|]; [|reflexivity].
  cbn [mbind option_bind].
  destruct (match_tag href) as [id|] eqn:Hm.
  - rewrite (match_tag_includes href id Hm).
    destruct href; [discriminate Hm | reflexivity].
  - destruct (truthy href && includes (lit "tag=") href); reflexivity.
Qed.

(** X18: what [collectAllTags] keeps of the page: a tag for each button of
    the filter bar, the active one apart, whose reference the
    expression matches (the tests on the reference before the match
    reject nothing more); each identifier is a plain one, each title
    has no white space around it. *)
Theorem collected_tags_are_plain (body : list node) :
  collectAllTags body
  = omap (fun btn =>
            match btn with
            | Elem _ _ attrs _ =>
                href ← getAttribute "href" attrs;
                id ← match_tag href;
                Some {| Tag.uuid := id; Tag.title := trim (textContent btn) |}
            | Text _ => None
            end) (flat_map (select_tag_buttons false) body) /\
  Forall (fun t => plain_identifier (Tag.uuid t) /\
                   trim (Tag.title t) = Tag.title t)
    (collectAllTags body).
Proof.
  split.
  - unfold collectAllTags.
    induction (flat_map (select_tag_buttons false) body) as [|btn l IH];
      [reflexivity|].
    cbn [omap list_omap]. rewrite IH, tag_of_button_match. reflexivity.
  - apply List.Forall_forall. intros t Ht. apply list_elem_of_In in Ht.
    unfold collectAllTags in Ht. apply list_elem_of_omap in Ht.
    destruct Ht as (btn & _ & Hb). split; [exact (tag_of_button_plain btn t Hb)|].
    rewrite tag_of_button_match in Hb.
    destruct btn as [|tg cls attrs ks]; [discriminate|].
    destruct (getAttribute "href" attrs) as [href|]; [|discriminate].
    cbn [mbind option_bind] in Hb.
    destruct (match_tag href); [|discriminate].
    injection Hb as <-. cbn [Tag.title]. apply trim_idempotent.
Qed.

(** X19: with the catalog that [collectAllTags] found, the boxes that were
    checked when the tags were saved are the boxes that the popover,
    opened again on the row, has checked. *)
Theorem catalog_selection_survives_reopening
  (body : list node) (w : world) (uuid uuid' : option jsstring)
  (r c c' : nat) (rw : Row) (boxes : list (jsstring * bool)) :
  allTags (this w) = collectAllTags body ->
  rows (page w) !! r = Some rw ->
  map fst boxes = map Tag.uuid (allTags (this w)) ->
  let k := {| k_uuid := uuid; k_row := r; k_cell := c |} in
  let w1 := exec (save_tags_click k boxes) w in
  let w2 := exec (editTags c' uuid' r) w1 in
  exists p,
    last (popovers (page w2)) = Some p /\
    p_form p
    = TagsForm (map (fun b => (b.1, bool_decide (b.1 ∈ checked_values boxes)))
                  boxes).
Proof.
  intros Hcat Hrow Hboxes k w1 w2.
  assert (Hplain : Forall (fun x => x <> [] /\ ~ In 44 x) (checked_values boxes)).
  { apply List.Forall_forall. intros id Hid. unfold checked_values in Hid.
    apply in_map_iff in Hid. destruct Hid as (b & <- & Hb).
    apply filter_In in Hb. destruct Hb as [Hb _].
    assert (Hin : In b.1 (map Tag.uuid (allTags (this w)))).
    { rewrite <- Hboxes. apply in_map. exact Hb. }
    apply in_map_iff in Hin. destruct Hin as (t & Ht & Hin).
    pose proof (collectAllTags_plain body) as Hall.
    rewrite List.Forall_forall in Hall. rewrite Hcat in Hin.
    destruct (Hall t Hin) as (Hne & Hcomma & _). rewrite <- Ht.
    split; assumption. }
  destruct (tags_survive_reopening w uuid uuid' r c c' rw
              (checked_values boxes) Hrow Hplain) as (p & Hp & Hform).
  exists p. split; [exact Hp|]. rewrite Hform. f_equal.
  transitivity (map (fun id => (id, bool_decide (id ∈ checked_values boxes)))
                  (map fst boxes)).
  - rewrite Hboxes, map_map. reflexivity.
  - rewrite map_map. reflexivity.
Qed.

(** X20: the tags popover sends identifiers of the catalog only, whatever is
    checked in it: a tag of the row that the catalog lacks is dropped
    by a save. *)
Theorem saved_tags_are_of_the_catalog
  (w : world) (c r : nat) (uuid : option jsstring) (rw : Row) (filled : form) :
  rows (page w) !! r = Some rw ->
  activePopover (this w) = None ->
  popovers (page w) = [] ->
  socket (this w) = true ->
  let p := next_id (page w) in
  let w1 := exec (editTags c uuid r) w in
  let w2 := exec (set_form p filled) w1 in
  let w3 := exec (on_save_click p) w2 in
  exists tags,
    sent w3 = sent w ++ [watch_update uuid (Tags tags)] /\
    Forall (fun id => id ∈ map Tag.uuid (allTags (this w))) tags /\
    rows (page w3) !! r
    = Some (row_data (insert "tags"%string (join [44] tags)) rw).
Proof.
  intros Hrow Hap Hps Hsock p w1 w2 w3.
  destruct (editor_effect TagList w c uuid r rw Hrow Hap Hps)
    as (_ & _ & _ & (x & Hx & Hid) & _ & Hrows & _ & Hs & _).
  cbn [editor] in Hx, Hrows, Hs. fold w1 in Hx, Hrows, Hs.
  pose proof (editTags_opens w c uuid r rw Hrow) as Hlast.
  cbv zeta in Hlast. fold w1 in Hlast. rewrite Hx in Hlast.
  injection Hlast as Hxeq.
  assert (H2 : this w2 = this w1 /\ rows (page w2) = rows (page w1) /\
               sent w2 = sent w1) by (repeat split).
  destruct H2 as (Hthis2 & Hrows2 & Hsent2).
  assert (Hthis1 : socket (this w1) = socket (this w) /\
                   allTags (this w1) = allTags (this w)).
  { subst w1. clear. destruct_world w. crunch; split; reflexivity. }
  destruct Hthis1 as [Hsock1 Hall1].
  assert (Hy : exists boxes,
             popovers (page w2)
             = [{| p_id := p; p_form := TagsForm boxes;
                   p_onclick := Some {| k_uuid := uuid; k_row := r;
                                        k_cell := c |} |}] /\
             map fst boxes = map Tag.uuid (allTags (this w))).
  { change (popovers (page w2))
      with (map (fun x =>
                   if bool_decide (p_id x = p) && accepts (p_form x) filled
                   then {| p_id := p_id x; p_form := filled;
                           p_onclick := p_onclick x |}
                   else x) (popovers (page w1))).
    rewrite Hx, Hxeq. cbn [map p_id p_form p_onclick].
    rewrite bool_decide_eq_true_2 by reflexivity. cbn [andb].
    destruct filled as [? ?|? ?|boxes]; cbn [accepts];
      try (eexists; split; [reflexivity|]; rewrite map_map; reflexivity).
    case_bool_decide as Hacc.
    - exists boxes. split; [reflexivity|]. rewrite <- Hacc, map_map. reflexivity.
    - eexists; split; [reflexivity|]; rewrite map_map; reflexivity. }
  destruct Hy as (boxes & Hy & Hboxes).
  assert (Hstep : w3 = exec (saveTags uuid (checked_values boxes) r c) w2).
  { subst w3. unfold on_save_click, exec.
    cbv beta iota zeta delta [mbind M_bind get_page fst snd find_popover].
    rewrite Hy. cbn [find p_id]. rewrite bool_decide_eq_true_2 by reflexivity.
    reflexivity. }
  exists (checked_values boxes). rewrite Hstep. split; [|split].
  - rewrite saveTags_sent by (rewrite Hthis2, Hsock1; exact Hsock).
    rewrite Hsent2, Hs. reflexivity.
  - apply Forall_forall. intros id Hin. rewrite <- Hboxes.
    unfold checked_values in Hin. apply list_elem_of_In in Hin.
    apply in_map_iff in Hin. destruct Hin as (b & <- & Hb).
    apply filter_In in Hb. destruct Hb as [Hb _].
    apply list_elem_of_In, in_map. exact Hb.
  - destruct (saveTags_writes w2 uuid (checked_values boxes) r c) as [_ Hw].
    rewrite Hw, lookup_alter_eq, Hrows2, Hrows, Hrow. reflexivity.
Qed.

(** ** The properties on the page of [Demo] *)

Section OnTheDemoPage.

Import Demo.

Let uuid0 : option jsstring := Some (lit "a1f0").

(** The title "Foo" is submitted as " Foo ". *)
Lemma title_unchanged_is_discarded_witness :
  let w1 := exec (editTitle 0 uuid0 0) w0 in
  let w2 := exec (saveHandler (lit " Foo ")) w1 in
  sent w2 = [] /\
  innerHTML <$> cells (page w2) !! 0%nat = Some (innerHTML title_cell).
Proof.
  destruct (title_unchanged_is_discarded w0 0 0 uuid0 title_cell (lit " Foo "))
    as (_ & Hs & _ & _ & Hh & _).
  - vm_compute. reflexivity.
  - vm_compute. eexists. reflexivity.
  - vm_compute. reflexivity.
  - split; [exact Hs | exact Hh].
Defined.

(** C2 fails on the code: the title "Foo" is cleared and Enter is
    pressed; the controller emits [watch_update] with the empty title. *)
Lemma empty_title_is_emitted :
  let w1 := step w0 (click_cell 0) in
  let w2 := run w1 [input_value 0 []; keydown (in_input 0) (lit "Enter")] in
  session_value w1 = Some (lit "Foo") /\
  lit "Foo" <> [] /\
  In (watch_update uuid0 (Title [])) (sent w2).
Proof.
  vm_compute. split; [reflexivity|]. split; [discriminate|].
  left. reflexivity.
Qed.

Lemma empty_title_is_sent_and_prior_title_shown_witness :
  let w1 := step w0 (click_cell 0) in
  sent (exec (saveTitle []) w1) = [watch_update uuid0 (Title [])].
Proof.
  destruct (empty_title_is_sent_and_prior_title_shown
              (step w0 (click_cell 0))
              {| Edit.cell := 0; Edit.uuid := uuid0; Edit.field := "title";
                 Edit.originalHTML := Some (innerHTML title_cell);
                 Edit.originalValue := Some (lit "Foo") |}
              (lit "Foo"))
    as (_ & Hs & _).
  - vm_compute. reflexivity.
  - reflexivity.
  - discriminate.
  - reflexivity.
  - exact Hs.
Defined.

Lemma preset_interval_payload_witness :
  sent (exec (save_interval_click
                {| k_uuid := uuid0; k_row := 0; k_cell := 2 |}
                (num_to_string (Int 180)) []) w0)
  = [watch_update uuid0
       (Interval false (Some
          {| weeks := Int 0; days := Int 0; hours := Int 3;
             minutes := Int 0; seconds := Int 0 |}))].
Proof.
  apply (preset_interval_payload w0
           {| k_uuid := uuid0; k_row := 0; k_cell := 2 |} 180%Z []).
  - simpl. tauto.
  - reflexivity.
Defined.

(** Two words between blank lines, with white space around them. *)
Lemma words_payload_is_trimmed_lines_witness :
  sent (exec (save_words_click
                {| k_uuid := uuid0; k_row := 0; k_cell := 1 |}
                [32; 97; 32; 10; 32; 10; 10; 98; 9] []) w0)
  = [watch_update uuid0 (Words [[97]; [98]] [])].
Proof.
  apply (words_payload_is_trimmed_lines w0
           {| k_uuid := uuid0; k_row := 0; k_cell := 1 |}
           [32; 97; 32; 10; 32; 10; 10; 98; 9] []).
  reflexivity.
Defined.


(** The world with a title update pending for the watch. *)
Let w_pending : world :=
  run w0 [click_cell 0; input_value 0 (lit "Bar");
          keydown (in_input 0) (lit "Enter")].

Lemma update_failure_with_pending_witness :
  let w' :=
    exec (on_update_result false uuid0 (Some (lit "disk full"))) w_pending in
  toasts (page w') = [(0%nat, lit "disk full")] /\
  pendingUpdates (this w') !! uuid0 = None.
Proof.
  destruct (update_failure_with_pending w_pending uuid0
              (Some (lit "disk full"))
              {| Pending.cell := 0;
                 Pending.originalHTML := Some (innerHTML title_cell);
                 Pending.originalValue := Some (lit "Foo") |})
    as (_ & Ht & _ & Hp & _).
  - vm_compute. reflexivity.
  - split; [exact Ht | exact Hp].
Defined.

Lemma at_most_one_popover_witness :
  (length (popovers (page (run w0 [click_cell 1; click_elsewhere;
                                  click_cell 3]))) <= 1)%nat.
Proof.
  refine (proj1 (at_most_one_popover _ _)).
  repeat apply reachable_step. apply reachable_new. reflexivity.
Defined.

Lemma toggle_emits_and_flips_witness :
  let w' := exec (on_toggle_click 0) w0 in
  sent w' = [watch_operation (Some (lit "pause")) uuid0] /\
  b_op <$> buttons (page w') !! 0%nat = Some (Some (lit "unpause")) /\
  r_classes <$> rows (page w') !! 0%nat = Some ["paused"%string].
Proof.
  destruct (toggle_emits_and_flips w0 0 pause_btn row0 Pause)
    as (_ & Hs & _).
  - reflexivity.
  - vm_compute. reflexivity.
  - vm_compute. reflexivity.
  - reflexivity.
  - split; [exact Hs | vm_compute; split; reflexivity].
Defined.




(** 90 minutes are saved, and shown again as the custom value. *)
Lemma interval_survives_reopening_witness :
  let w1 := exec (saveInterval uuid0 (lit "90") 0 2) w0 in
  let w2 := exec (editInterval 2 uuid0 0) w1 in
  sent w1
  = [watch_update uuid0
       (Interval false (Some
          {| weeks := Int 0; days := Int 0; hours := Int 1;
             minutes := Int 30; seconds := Int 0 |}))] /\
  exists p,
    last (popovers (page w2)) = Some p /\
    p_form p = IntervalForm (lit "custom") (lit "90").
Proof.
  destruct (interval_survives_reopening w0 uuid0 uuid0 0 2 2 row0 90%Z)
    as [Hs Hp].
  - reflexivity.
  - unfold MAX_SAFE_INTEGER. lia.
  - split; [exact (Hs eq_refl) | exact Hp].
Defined.


(** Two words, with white space and an empty line between them. *)
Lemma words_survive_reopening_witness :
  let k := {| k_uuid := uuid0; k_row := 0; k_cell := 1 |} in
  let w1 := exec (save_words_click k [32; 97; 32; 10; 10; 98] []) w0 in
  let w2 := exec (editWatchWords 1 uuid0 0) w1 in
  exists p,
    last (popovers (page w2)) = Some p /\
    p_form p = WordsForm [97; 10; 98] [].
Proof.
  destruct (words_survive_reopening w0 uuid0 uuid0 0 1 1 row0
              [32; 97; 32; 10; 10; 98] [])
    as (p & b & t & Hp & Hf & Hb & Ht & _).
  - reflexivity.
  - exists p. split; [exact Hp|]. rewrite Hf, Hb, Ht. reflexivity.
Defined.

(** The catalog of [Demo] is the one that the filter bar gives; the box
    of the second tag is checked. *)
Lemma catalog_selection_survives_reopening_witness :
  let k := {| k_uuid := uuid0; k_row := 0; k_cell := 3 |} in
  let w1 := exec (save_tags_click k [(lit "aa", false); (lit "bb", true)]) w0 in
  let w2 := exec (editTags 3 uuid0 0) w1 in
  exists p,
    last (popovers (page w2)) = Some p /\
    p_form p = TagsForm [(lit "aa", false); (lit "bb", true)].
Proof.
  destruct (catalog_selection_survives_reopening filter_bar w0 uuid0 uuid0
              0 3 3 row0 [(lit "aa", false); (lit "bb", true)])
    as (p & Hp & Hf).
  - vm_compute. reflexivity.
  - reflexivity.
  - reflexivity.
  - exists p. split; [exact Hp|]. rewrite Hf. vm_compute. reflexivity.
Defined.

(** The first box is checked in the popover of the tags cell. *)
Lemma saved_tags_are_of_the_catalog_witness :
  let w1 := exec (editTags 3 uuid0 0) w0 in
  let w2 :=
    exec (set_form 0 (TagsForm [(lit "aa", true); (lit "bb", false)])) w1 in
  let w3 := exec (on_save_click 0) w2 in
  exists tags,
    sent w3 = [watch_update uuid0 (Tags tags)] /\
    Forall (fun id => id ∈ map Tag.uuid catalog) tags.
Proof.
  destruct (saved_tags_are_of_the_catalog w0 3 0 uuid0 row0
              (TagsForm [(lit "aa", true); (lit "bb", false)]))
    as (tags & Hs & Hall & _).
  - reflexivity.
  - reflexivity.
  - reflexivity.
  - reflexivity.
  - exists tags. split; [exact Hs | exact Hall].
Defined.

(** The title update of [w_pending] is acknowledged. *)
Lemma success_flash_comes_and_goes_witness :
  let w1 := exec (on_update_result true uuid0 None) w_pending in
  let w2 := step w1 (timeout (length (timers w_pending))) in
  pendingUpdates (this w1) !! uuid0 = None /\
  cells (page w2) = cells (page w_pending).
Proof.
  edestruct (success_flash_comes_and_goes w_pending uuid0 None)
    as (Hp & _ & _ & _ & Hc & _).
  - vm_compute. reflexivity.
  - vm_compute. reflexivity.
  - cbn [c_classes]. intros H. apply list_elem_of_In in H.
    destruct H as [H|[]]. discriminate H.
  - split; [|exact Hc]. rewrite Hp. apply lookup_delete_eq.
Defined.

(** Two failures, and the toast of the first one taken away. *)
Lemma toasts_keep_their_timers_witness :
  toasts_timed
    (run w0 [operation_result false None;
             operation_result false (Some (lit "busy")); timeout 0]).
Proof. apply (toasts_keep_their_timers w0). reflexivity. Defined.

(** "Bar" is typed over the title, then the edit is cancelled. *)
Lemma title_edit_cancelled_restores_cell_witness :
  let w1 := exec (editTitle 0 uuid0 0) w0 in
  let w2 := exec (update_cell 0 (cell_input (lit "Bar"))) w1 in
  let w3 := exec cancelEdit w2 in
  cells (page w3) = cells (page w0) /\ sent w3 = [].
Proof.
  destruct (title_edit_cancelled_restores_cell w0 0 0 uuid0 title_cell
              (lit "Bar"))
    as (Hc & _ & Hs & _).
  - vm_compute. reflexivity.
  - reflexivity.
  - discriminate.
  - apply not_elem_of_nil.
  - vm_compute. eexists. reflexivity.
  - split; [exact Hc | exact Hs].
Defined.

(** The watch words popover is filled in, then cancelled. *)
Lemma popover_cancelled_changes_nothing_witness :
  let w1 := exec (editWatchWords 1 uuid0 0) w0 in
  let w2 := exec (set_form 0 (WordsForm (lit "spam") [])) w1 in
  let w3 := exec cancelEdit w2 in
  popovers (page w3) = [] /\ rows (page w3) = rows (page w0) /\ sent w3 = [].
Proof.
  destruct (popover_cancelled_changes_nothing WatchWords w0 1 0 uuid0 row0
              (WordsForm (lit "spam") []))
    as (_ & Hp & _ & Hr & Hs & _).
  - reflexivity.
  - reflexivity.
  - reflexivity.
  - split; [exact Hp|]. split; [exact Hr | exact Hs].
Defined.

(** Escape in the text input of the title cell. *)
Lemma escape_cancels_from_anywhere_witness :
  let w := step w0 (click_cell 0) in
  let w' := step w (keydown (in_input 0) (lit "Escape")) in
  activeElement (page w) = Some (FInput 0) /\
  activeEdit (this w') = None /\
  activeElement (page w') = Some (FCell 0) /\
  sent w' = [].
Proof.
  destruct (escape_cancels_from_anywhere (step w0 (click_cell 0))
              (in_input 0)
              {| Edit.cell := 0; Edit.uuid := uuid0; Edit.field := "title";
                 Edit.originalHTML := Some (innerHTML title_cell);
                 Edit.originalValue := Some (lit "Foo") |})
    as (_ & Ha & _ & Hf & Hs & _).
  - vm_compute. reflexivity.
  - intros c H. vm_compute in H. injection H as <-.
    split; [reflexivity|]. eexists. split; [reflexivity | discriminate].
  - vm_compute. eexists. reflexivity.
  - split; [vm_compute; reflexivity|]. split; [exact Ha|].
    split; [exact Hf | exact Hs].
Defined.

(** The pause button is clicked while the watch words popover is
    open. *)
Lemma toggle_click_closes_popover_witness :
  let w := step w0 (click_cell 1) in
  let w' := step w (click_toggle 0) in
  popovers (page w) <> [] /\
  popovers (page w') = [] /\
  activeEdit (this w') = None.
Proof.
  destruct (toggle_click_closes_popover (step w0 (click_cell 1)) 0 0
              {| Edit.cell := 1; Edit.uuid := uuid0;
                 Edit.field := "watch_words";
                 Edit.originalHTML := None; Edit.originalValue := None |})
    as (Ha & _ & Hp & _).
  - vm_compute. reflexivity.
  - vm_compute. reflexivity.
  - reflexivity.
  - split; [vm_compute; discriminate|].
    split; [rewrite Hp; vm_compute; reflexivity | exact Ha].
Defined.

(** The pause button is clicked twice. *)
Lemma toggle_twice_witness :
  let w2 := exec (on_toggle_click 0) (exec (on_toggle_click 0) w0) in
  sent w2
  = [watch_operation (Some (lit "pause")) uuid0;
     watch_operation (Some (lit "pause")) uuid0] /\
  exists b2, buttons (page w2) !! 0%nat = Some b2 /\
             b_op b2 = Some (lit "pause").
Proof.
  destruct (toggle_twice w0 0 pause_btn row0 Pause) as (Hs & Hb & _).
  - reflexivity.
  - vm_compute. reflexivity.
  - vm_compute. reflexivity.
  - reflexivity.
  - split; [exact Hs | exact Hb].
Defined.

(** The status cell of [page1] is clicked. *)
Lemma unknown_field_ignored_witness :
  step w_offline (click_cell 1) = w_offline /\
  step w_offline (keydown (in_cell 1) (lit "Enter")) = w_offline.
Proof.
  destruct (unknown_field_ignored w_offline 1 status_cell) as [Hc Hk].
  - vm_compute. reflexivity.
  - intros H. vm_compute in H. discriminate H.
  - intros H. vm_compute in H. discriminate H.
  - intros H. vm_compute in H. discriminate H.
  - intros H. vm_compute in H. discriminate H.
  - split; [exact Hc | apply Hk; reflexivity].
Defined.


(** The title of [page1], whose cell has no [.title-text], becomes
    "Bar". *)
Lemma title_save_throws_without_title_text_witness :
  let w := step w_offline (click_cell 0) in
  let w1 := exec (saveTitle (lit "Bar")) w in
  is_Some (activeEdit (this w)) /\
  activeEdit (this w1) = activeEdit (this w) /\
  step w1 (click_cell 1) = w1.
Proof.
  destruct (title_save_throws_without_title_text
               (step w_offline (click_cell 0))
               {| Edit.cell := 0; Edit.uuid := uuid0; Edit.field := "title";
                  Edit.originalHTML := Some [Text (lit "Foo")];
                  Edit.originalValue := Some (lit "Foo") |}
               {| c_row := 0; c_field := Some (lit "title");
                  c_classes := ["editing"%string]; c_html := [];
                  c_input := Some (lit "Foo") |}
               [Text (lit "Foo")] (lit "Bar"))
    as (_ & Ha & _ & _ & _ & Hc).
  - vm_compute. reflexivity.
  - reflexivity.
  - discriminate.
  - reflexivity.
  - vm_compute. reflexivity.
  - reflexivity.
  - split; [vm_compute; eexists; reflexivity|].
    split; [rewrite Ha; vm_compute; reflexivity | apply Hc].
Defined.

(** The title cell of the row of [page1] that has no title. *)
Lemma title_without_text_is_not_edited_witness :
  step w_bare (click_cell 2) = w_bare.
Proof.
  destruct (title_without_text_is_not_edited w_bare 2 untitled_cell row1)
    as (_ & Hc & _).
  - vm_compute. reflexivity.
  - reflexivity.
  - vm_compute. reflexivity.
  - reflexivity.
  - reflexivity.
  - exact Hc.
Defined.


End OnTheDemoPage.
